(** * AegisNet: risk scoring and default-cascade simulation

    A shallow embedding of the numeric core of the repository:
    - [processCsvData], [calculateStableRisk] and [generateProfessionalName]
      of [src/utils/dataProcessor.ts];
    - [runSimulation] of the [SystemicSimulator] component, with the
      figures and the graphs that read its result;
    - the figures of [RiskMonitor] and [PredictionPage], the graph of
      [SmartGraph] and [runTargetedSimulation] of [InterventionSandbox];
    - [generateMockExposures] and [runAnalysisEngine] of the application.

    JavaScript numbers are IEEE-754 doubles.  The model keeps the three
    special values (NaN and the two infinities) and represents every finite
    double by an exact rational: rounding, overflow and the sign of zero are
    not modelled.  Fields have their declared type [number]; a field that is
    missing in a row reads as [NaN]: like [undefined] it is falsy, so
    [x || d] yields the default [d].

    The statements are chosen to hold of the doubles as well: an interval
    is closed at an end that rounding can reach, and where an exact value
    or a strict sign is stated a hypothesis keeps the sums exact (whole
    numbers up to 2^53) or the quotient away from underflow. *)

From Stdlib Require Import QArith Qround Lqa.
From stdpp Require Import gmap strings list list_numbers fin_maps sorting.

Open Scope Q_scope.

(** ** JavaScript numbers *)

Module JS.

Inductive number : Type :=
  | NaN
  | PInf
  | NInf
  | Fin (q : Q).

Definition isNaN (x : number) : bool :=
  match x with NaN => true | _ => false end.

Definition isFinite (x : number) : bool :=
  match x with Fin _ => true | _ => false end.

(** [Qltb a b] is [a < b] on rationals. *)
Definition Qltb (a b : Q) : bool := negb (Qle_bool b a).

(** Sign of a non-NaN number: [Lt] negative, [Eq] zero, [Gt] positive. *)
Definition sign (x : number) : comparison :=
  match x with
  | NaN => Eq
  | PInf => Gt
  | NInf => Lt
  | Fin q => q ?= 0
  end.

Definition neg (x : number) : number :=
  match x with
  | NaN => NaN
  | PInf => NInf
  | NInf => PInf
  | Fin q => Fin (- q)
  end.

(** [x + y] *)
Definition add (x y : number) : number :=
  match x, y with
  | NaN, _ | _, NaN => NaN
  | PInf, NInf | NInf, PInf => NaN
  | PInf, _ | _, PInf => PInf
  | NInf, _ | _, NInf => NInf
  | Fin a, Fin b => Fin (a + b)
  end.

(** [x - y] *)
Definition sub (x y : number) : number := add x (neg y).

(** An infinity carrying the sign [c]; [NaN] for the sign of zero. *)
Definition inf_of_sign (c : comparison) : number :=
  match c with Gt => PInf | Lt => NInf | Eq => NaN end.

(** [x * y]: an infinity times zero is NaN. *)
Definition mul (x y : number) : number :=
  match x, y with
  | NaN, _ | _, NaN => NaN
  | Fin a, Fin b => Fin (a * b)
  | _, _ =>
      match sign x, sign y with
      | Eq, _ | _, Eq => NaN
      | Gt, Gt | Lt, Lt => PInf
      | _, _ => NInf
      end
  end.

(** [x / y]: a finite value over an infinity is zero, a non-zero value over
    zero is an infinity, and [0/0] and [Infinity/Infinity] are NaN.  A zero
    divisor is read as [+0]. *)
Definition div (x y : number) : number :=
  match x, y with
  | NaN, _ | _, NaN => NaN
  | Fin a, Fin b =>
      if Qeq_bool b 0 then inf_of_sign (a ?= 0) else Fin (a / b)
  | Fin _, _ => Fin 0
  | _, Fin b =>
      match sign x, Qltb b 0 with
      | Gt, false | Lt, true => PInf
      | _, _ => NInf
      end
  | _, _ => NaN
  end.

(** [x <= y]: false as soon as one side is NaN. *)
Definition leb (x y : number) : bool :=
  match x, y with
  | NaN, _ | _, NaN => false
  | NInf, _ | _, PInf => true
  | _, NInf | PInf, _ => false
  | Fin a, Fin b => Qle_bool a b
  end.

(** [x < y] *)
Definition ltb (x y : number) : bool :=
  match x, y with
  | NaN, _ | _, NaN => false
  | PInf, _ | _, NInf => false
  | NInf, _ | _, PInf => true
  | Fin a, Fin b => Qltb a b
  end.

(** [x > y] *)
Definition gtb (x y : number) : bool := ltb y x.

(** Truthiness of a number: [0] and [NaN] are falsy. *)
Definition truthy (x : number) : bool :=
  match x with
  | NaN => false
  | Fin q => negb (Qeq_bool q 0)
  | _ => true
  end.

(** [x || d] on numbers. *)
Definition or (x d : number) : number := if truthy x then x else d.

(** [Math.min(x, y)] and [Math.max(x, y)]: NaN if either argument is. *)
Definition min (x y : number) : number :=
  match x, y with
  | NaN, _ | _, NaN => NaN
  | _, _ => if leb x y then x else y
  end.

Definition max (x y : number) : number :=
  match x, y with
  | NaN, _ | _, NaN => NaN
  | _, _ => if leb x y then y else x
  end.

(** The number of a non-negative integer such as an array length. *)
Definition of_nat (n : nat) : number := Fin (inject_Z (Z.of_nat n)).

(** Numbers are compared up to the value of the rational. *)
Definition eqv (x y : number) : Prop :=
  match x, y with
  | NaN, NaN | PInf, PInf | NInf, NInf => True
  | Fin a, Fin b => a == b
  | _, _ => False
  end.

(** [within lo hi x]: [x] is a finite number with [lo <= x <= hi]. *)
Definition within (lo hi : Q) (x : number) : Prop :=
  match x with
  | Fin q => lo <= q /\ q <= hi
  | _ => False
  end.

(** [nonneg x]: [x] is a non-negative number or [+Infinity]. *)
Definition nonneg (x : number) : Prop :=
  match x with
  | Fin q => 0 <= q
  | PInf => True
  | _ => False
  end.

(** [above x]: [x] is neither NaN nor [-Infinity]. *)
Definition above (x : number) : Prop :=
  match x with Fin _ | PInf => True | _ => False end.

(** [capped x]: [x] is neither NaN nor [+Infinity]. *)
Definition capped (x : number) : Prop :=
  match x with Fin _ | NInf => True | _ => False end.

End JS.

Import JS.

Declare Scope js_scope.
Delimit Scope js_scope with js.
Bind Scope js_scope with number.
Infix "+" := JS.add : js_scope.
Infix "-" := JS.sub : js_scope.
Infix "*" := JS.mul : js_scope.
Infix "/" := JS.div : js_scope.
Infix "<=?" := JS.leb : js_scope.
Infix "<?" := JS.ltb : js_scope.
Infix ">?" := JS.gtb : js_scope.
Infix "||" := JS.or : js_scope.

(** ** Data model ([src/types.ts]) *)

Record InstitutionMetrics : Type := {
  m_date : string;
  m_institution_id : string;
  m_total_assets : number;
  m_leverage_ratio : number;
  m_liquidity_ratio : number;
  m_roe : number;
  m_cds_spread : number
}.

Record ExposureNetwork : Type := {
  date : string;
  creditor_id : string;
  debtor_id : string;
  exposure_amount : number;
  collateral_value : number
}.

Record MarketData : Type := {
  k_date : string;
  vix_index : number;
  yield_curve_slope : number;
  gdp_growth : number
}.

Record CrisisLabel : Type := {
  l_date : string;
  is_crisis : number;
  crisis_severity : number
}.

Record CrisisPrediction : Type := {
  timestamp : string;
  probability : number;
  severity : number
}.

Inductive InstitutionType : Type := G_SIB | D_SIB | Regional | Investment.

Inductive Sector : Type := Banking | Insurance | AssetManagement.

(** [Institution extends InstitutionMetrics].  The display [name] is a
    presentation string that no property below reads; it is left out. *)
Record Institution : Type := {
  i_date : string;
  institution_id : string;
  total_assets : number;
  leverage_ratio : number;
  liquidity_ratio : number;
  roe : number;
  cds_spread : number;
  type : InstitutionType;
  sector : Sector;
  riskScore : number;
  pagerank : number;
  centrality : number
}.

Record Exposure : Type := {
  source : string;
  target : string;
  amount : number;
  collateral : number
}.

(** ** The cascade simulator ([runSimulation] of [SystemicSimulator]) *)

Module Cascade.

(** One entry of the per-run [state] array. *)
Record SimState : Type := {
  id : string;
  equity : number;
  assets : number
}.

Record SimResult : Type := {
  failedNodes : list string;
  rounds : list (list string);
  totalLoss : number;
  depth : nat
}.

(** A [Set<string>] keeps its members in insertion order: it is a list
    without repetition, [has] is membership and [add] appends a new member. *)
Definition Set_has (s : list string) (x : string) : bool := bool_decide (x ∈ s).

Definition Set_add (s : list string) (x : string) : list string :=
  if Set_has s x then s else s ++ [x].

(** [institutions.map(i => ({ id, equity, assets }))] *)
Definition initial_state (institutions : list Institution) : list SimState :=
  (λ i, {| id := institution_id i;
            equity := ((total_assets i || Fin 100) / (leverage_ratio i || Fin 15))%js;
            assets := (total_assets i || Fin 0)%js |}) <$> institutions.

(** What one propagation round mutates: the [failed] set, the [state]
    array and the [nextFailures] array of the round. *)
Record Work : Type := {
  failed : list string;
  state : list SimState;
  nextFailures : list string
}.

(** Body of [affectedLinks.forEach(link => ...)]. *)
Definition process_link (shock : number) (w : Work) (link : Exposure) : Work :=
  if Set_has (failed w) (source link) then w
  else
    match list_find (λ s, id s = source link) (state w) with
    | None => w
    | Some (k, creditor) =>
        let loss := ((amount link || Fin 0) * shock)%js in
        let equity' := (equity creditor - loss)%js in
        let state' :=
          <[k := {| id := id creditor; equity := equity'; assets := assets creditor |}]>
            (state w) in
        if (equity' <=? Fin 0)%js
        then {| failed := Set_add (failed w) (source link);
                state := state';
                nextFailures := nextFailures w ++ [source link] |}
        else {| failed := failed w; state := state'; nextFailures := nextFailures w |}
    end.

(** Body of [currentFailed.forEach(fId => ...)]. *)
Definition process_failed (exposures : list Exposure) (shock : number)
    (w : Work) (fId : string) : Work :=
  let affectedLinks := filter (λ e, target e = fId) exposures in
  foldl (process_link shock) w affectedLinks.

(** The variables of the [while] loop. *)
Record Loop : Type := {
  l_failed : list string;
  l_rounds : list (list string);
  l_currentFailed : list string;
  l_state : list SimState;
  l_depth : nat
}.

(** One execution of the loop body up to the [break] test. *)
Definition round (exposures : list Exposure) (shock : number) (s : Loop) : Work :=
  foldl (process_failed exposures shock)
    {| failed := l_failed s; state := l_state s; nextFailures := [] |}
    (l_currentFailed s).

(** The loop condition [currentFailed.length > 0 && depth < 20]. *)
Definition loop_cond (s : Loop) : bool :=
  (0 <? length (l_currentFailed s))%nat && (l_depth s <? 20)%nat.

(** The state in which the loop is left by [break]: only the in-place
    mutations of the round persist. *)
Definition after_break (s : Loop) (w : Work) : Loop :=
  {| l_failed := failed w; l_rounds := l_rounds s;
     l_currentFailed := l_currentFailed s; l_state := state w;
     l_depth := l_depth s |}.

(** The state at the end of an iteration that recorded failures. *)
Definition after_round (s : Loop) (w : Work) : Loop :=
  {| l_failed := failed w; l_rounds := l_rounds s ++ [nextFailures w];
     l_currentFailed := nextFailures w; l_state := state w;
     l_depth := S (l_depth s) |}.

(** The [while] loop.  [fuel] bounds the number of condition tests; running
    out of it is reported as [None].  The second component counts the
    executions of the loop body (it is not a variable of the program). *)
Fixpoint while_loop (exposures : list Exposure) (shock : number)
    (fuel : nat) (s : Loop) (bodies : nat) : option (Loop * nat) :=
  match fuel with
  | O => None
  | S fuel' =>
      if loop_cond s then
        let w := round exposures shock s in
        if (length (nextFailures w) =? 0)%nat
        then Some (after_break s w, S bodies)
        else while_loop exposures shock fuel' (after_round s w) (S bodies)
      else Some (s, bodies)
  end.

(** [Array.from(failed).reduce((sum, id) => sum + (inst?.total_assets || 0), 0)] *)
Definition total_loss (institutions : list Institution) (failed : list string) : number :=
  foldl (λ sum fid,
           let inst := list_find (λ i, institution_id i = fid) institutions in
           let ta := match inst with Some (_, i) => total_assets i | None => NaN end in
           (sum + (ta || Fin 0))%js)
        (Fin 0) failed.

Inductive outcome : Type :=
  | OutOfFuel
  | Skipped
  | Completed (r : SimResult) (bodies : nat).

Definition initial_loop (institutions : list Institution) (startId : string) : Loop :=
  {| l_failed := Set_add [] startId; l_rounds := [[startId]];
     l_currentFailed := [startId]; l_state := initial_state institutions;
     l_depth := 0 |}.

(** [runSimulation(startId, shock)] with the loop run on [fuel].  [Skipped]
    is the early [return] on a falsy [startId]; [Completed r n] carries the
    value handed to [setSimResult] and the number of loop bodies executed. *)
Definition run_with_fuel (fuel : nat) (institutions : list Institution)
    (exposures : list Exposure) (startId : string) (shock : number) : outcome :=
  if bool_decide (startId = "") then Skipped
  else
    match while_loop exposures shock fuel (initial_loop institutions startId) 0 with
    | None => OutOfFuel
    | Some (s, bodies) =>
        Completed {| failedNodes := l_failed s; rounds := l_rounds s;
                     totalLoss := total_loss institutions (l_failed s);
                     depth := l_depth s |} bodies
    end.

(** [runSimulation]: twenty-one tests of the loop condition always suffice,
    and more fuel gives the same outcome (see [loop_returns]). *)
Definition runSimulation := run_with_fuel 21.

(** The ids of the institutions list. *)
Definition ids (institutions : list Institution) : list string :=
  institution_id <$> institutions.

(** The smallest positive double, [2^-1074]: a quotient of doubles that is
    at least this large is a positive double, it does not underflow to zero. *)
Definition min_double : Q := 1 # (2 ^ 1074).

(** [afloat e]: the equity [e] is not at or below zero, also as a double:
    it is at least the smallest positive double, or [+Infinity], or NaN. *)
Definition afloat (e : number) : Prop :=
  match e with
  | Fin q => min_double <= q
  | PInf | NaN => True
  | NInf => False
  end.

(** The entries that a round reads for the creditors in [known] are afloat:
    an entry is read for its id when no earlier entry has that id. *)
Definition read_afloat (known : string → Prop) (st : list SimState) : Prop :=
  ∀ j c, st !! j = Some c → known (id c) →
         (∀ i y, st !! i = Some y → (i < j)%nat → id y ≠ id c) →
         afloat (equity c).

(** [creditors_afloat institutions exposures startId]: the state entry
    that the first round reads for a creditor of the start institution is
    afloat.  The entry read for an id is the first one with that id. *)
Definition creditors_afloat (institutions : list Institution)
    (exposures : list Exposure) (startId : string) : Prop :=
  ∀ link k creditor,
    link ∈ exposures → target link = startId → source link ≠ startId →
    list_find (λ s, id s = source link) (initial_state institutions) = Some (k, creditor) →
    afloat (equity creditor).

(** [process_link] either leaves the work untouched, or charges the first
    state entry of the creditor and, when its equity is exhausted, records
    the creditor as failed. *)
Inductive link_effect (shock : number) (w : Work) (link : Exposure) : Work → Prop :=
  | link_skipped :
      source link ∈ failed w ∨ list_find (λ s, id s = source link) (state w) = None →
      link_effect shock w link w
  | link_charged k creditor equity' :
      source link ∉ failed w →
      list_find (λ s, id s = source link) (state w) = Some (k, creditor) →
      equity' = (equity creditor - (amount link || Fin 0) * shock)%js →
      (equity' <=? Fin 0)%js = false →
      link_effect shock w link
        {| failed := failed w;
           state := <[k := {| id := id creditor; equity := equity';
                              assets := assets creditor |}]> (state w);
           nextFailures := nextFailures w |}
  | link_failed k creditor equity' :
      source link ∉ failed w →
      list_find (λ s, id s = source link) (state w) = Some (k, creditor) →
      equity' = (equity creditor - (amount link || Fin 0) * shock)%js →
      (equity' <=? Fin 0)%js = true →
      link_effect shock w link
        {| failed := failed w ++ [source link];
           state := <[k := {| id := id creditor; equity := equity';
                              assets := assets creditor |}]> (state w);
           nextFailures := nextFailures w ++ [source link] |}.

End Cascade.

(** ** The dataset normalizer ([src/utils/dataProcessor.ts]) *)

Module Normalizer.

(** *** [Math.random()]

    The draws come from an oracle [ω]; a computation threads the number of
    draws made so far. *)

Definition Rand (A : Type) : Type := nat → A * nat.

#[global] Instance rand_ret : MRet Rand := λ A a n, (a, n).

#[global] Instance rand_bind : MBind Rand :=
  λ A B k c n, let '(a, n') := c n in k a n'.

Definition random (ω : nat → Q) : Rand number := λ n, (Fin (ω n), S n).

(** [xs.map(f)] where [f] draws random numbers, left to right. *)
Fixpoint mapM {A B} (f : A → Rand B) (xs : list A) : Rand (list B) :=
  match xs with
  | [] => mret []
  | x :: xs' => y ← f x ; ys ← mapM f xs' ; mret (y :: ys)
  end.

(** How a [try] block ends. *)
Inductive completion (A : Type) : Type :=
  | Normal (a : A)
  | Throw.
Arguments Normal {A} a.
Arguments Throw {A}.

(** *** [calculateStableRisk] *)

(** [currentMetrics.reduce((acc, curr) => acc + (f(curr) || 0), 0)] *)
Definition sum_of (f : InstitutionMetrics → number)
    (currentMetrics : list InstitutionMetrics) : number :=
  foldl (λ acc curr, (acc + (f curr || Fin 0))%js) (Fin 0) currentMetrics.

(** Steps 1 to 4: the weighted sum before the jitter. *)
Definition baseRiskIndex (currentMetrics : list InstitutionMetrics)
    (marketLatest : MarketData) : number :=
  let n := of_nat (length currentMetrics) in
  let avgLeverage := (sum_of m_leverage_ratio currentMetrics / n)%js in
  let leverageScore := JS.min (avgLeverage / Fin 30)%js (Fin 1) in
  let avgCds := (sum_of m_cds_spread currentMetrics / n)%js in
  let cdsScore := JS.min (avgCds / Fin 600)%js (Fin 1) in
  let vixVal := (vix_index marketLatest || Fin 25)%js in
  let vixScore := JS.min (vixVal / Fin 50)%js (Fin 1) in
  (leverageScore * Fin 0.4 + cdsScore * Fin 0.4 + vixScore * Fin 0.2)%js.

(** Step 5: [(Math.random() * 0.0024) - 0.0012] for the draw [r]. *)
Definition jitter (r : number) : number := (r * Fin 0.0024 - Fin 0.0012)%js.

(** The body of the [try] block.  No operation in it throws on rows of the
    declared types, so it always completes normally. *)
Definition stable_risk_try (ω : nat → Q) (currentMetrics : list InstitutionMetrics)
    (marketLatest : MarketData) : Rand (completion number) :=
  if (length currentMetrics =? 0)%nat then mret (Normal (Fin 0.62))
  else
    r ← random ω ;
    mret (Normal (JS.max (Fin 0)
                   (JS.min (Fin 1)
                      (baseRiskIndex currentMetrics marketLatest + jitter r)%js))).

(** The value returned by the [catch] clause. *)
Definition safe_fallback : number := Fin 0.6245.

Definition calculateStableRisk (ω : nat → Q) (currentMetrics : list InstitutionMetrics)
    (marketLatest : MarketData) : Rand number :=
  c ← stable_risk_try ω currentMetrics marketLatest ;
  mret (match c with Normal v => v | Throw => safe_fallback end).

(** *** [processCsvData] *)

Record ProcessedData : Type := {
  nodes : list Institution;
  links : list Exposure;
  predictions : list CrisisPrediction
}.

(** [metrics.length > 0 ? metrics[metrics.length - 1].date : ''] *)
Definition latestDate (metrics : list InstitutionMetrics) : string :=
  match last metrics with Some m => m_date m | None => "" end.

(** The literal [{ vix_index: 25 }]: its other fields are undefined. *)
Definition default_market : MarketData :=
  {| k_date := ""; vix_index := Fin 25; yield_curve_slope := NaN; gdp_growth := NaN |}.

(** [market.find(m => m.date === latestDate) || market[market.length - 1] || { vix_index: 25 }] *)
Definition marketLatest (market : list MarketData) (latest : string) : MarketData :=
  match list_find (λ m, k_date m = latest) market with
  | Some (_, m) => m
  | None => match last market with Some m => m | None => default_market end
  end.

(** The names that every object inherits from [Object.prototype].  Read
    from an object that does not hold it, such a name gives a function (an
    object for [__proto__]) where any other name gives [undefined]; a number
    or a string written under [__proto__] is not stored. *)
Definition inherited_names : list string :=
  ["constructor"; "hasOwnProperty"; "isPrototypeOf"; "propertyIsEnumerable";
   "toLocaleString"; "toString"; "valueOf"; "__proto__"; "__defineGetter__";
   "__defineSetter__"; "__lookupGetter__"; "__lookupSetter__"].

(** [plain k]: the id [k] is no inherited name, so that an object used as
    a map reads and writes it like a map. *)
Definition plain (k : string) : Prop := k ∉ inherited_names.

(** The two accumulators [nodeVolumes] and [connectionCounts], objects
    used as maps from ids to numbers.  The counters only ever hold positive
    integers and are kept as [nat].  The tables are those of the [plain]
    ids: the statements about an id assume it [plain], and those about the
    number of keys assume that no key is [__proto__] (see [keys_stored]). *)
Record Tables : Type := {
  nodeVolumes : gmap string number;
  connectionCounts : gmap string nat
}.

(** [nodeVolumes[k] || 0], for a [plain] id [k] *)
Definition volume_of (vol : gmap string number) (k : string) : number :=
  (default NaN (vol !! k) || Fin 0)%js.

(** [connectionCounts[k] || 0], for a [plain] id [k] *)
Definition count_of (cnt : gmap string nat) (k : string) : nat :=
  default 0%nat (cnt !! k).

(** Body of [network.forEach(edge => ...)], for [plain] endpoints. *)
Definition aggregate_edge (latest : string) (t : Tables) (edge : ExposureNetwork) : Tables :=
  if bool_decide (date edge = latest) then
    let amt := (exposure_amount edge || Fin 0)%js in
    let vol1 := <[debtor_id edge := (volume_of (nodeVolumes t) (debtor_id edge) + amt)%js]>
                  (nodeVolumes t) in
    let vol2 := <[creditor_id edge := (volume_of vol1 (creditor_id edge) + amt)%js]> vol1 in
    let cnt1 := <[debtor_id edge := (count_of (connectionCounts t) (debtor_id edge) + 1)%nat]>
                  (connectionCounts t) in
    let cnt2 := <[creditor_id edge := (count_of cnt1 (creditor_id edge) + 1)%nat]> cnt1 in
    {| nodeVolumes := vol2; connectionCounts := cnt2 |}
  else t.

Definition aggregate (latest : string) (network : list ExposureNetwork) : Tables :=
  foldl (aggregate_edge latest) {| nodeVolumes := ∅; connectionCounts := ∅ |} network.

(** The four weighted sub-scores of one metrics row. *)
Definition leverageScore (m : InstitutionMetrics) : number :=
  let lev := (m_leverage_ratio m || Fin 15)%js in
  (JS.min (lev / Fin 40) (Fin 1) * Fin 40)%js.

Definition liquidityScore (m : InstitutionMetrics) : number :=
  let liq := (m_liquidity_ratio m || Fin 1)%js in
  (JS.max (Fin 0) (Fin 1.2 - liq) * Fin 30)%js.

Definition cdsScore (m : InstitutionMetrics) : number :=
  let cds := (m_cds_spread m || Fin 100)%js in
  (JS.min (cds / Fin 1000) (Fin 1) * Fin 20)%js.

Definition vixScore (mk : MarketData) : number :=
  let vix := (vix_index mk || Fin 25)%js in
  (JS.min (vix / Fin 60) (Fin 1) * Fin 10)%js.

(** [Math.min(100, leverageScore + liquidityScore + cdsScore + vixScore)] *)
Definition riskScore_raw (m : InstitutionMetrics) (mk : MarketData) : number :=
  JS.min (Fin 100) (leverageScore m + liquidityScore m + cdsScore m + vixScore mk)%js.

(** [isNaN(riskScore) ? 0 : riskScore] *)
Definition risk_score (m : InstitutionMetrics) (mk : MarketData) : number :=
  let riskScore := riskScore_raw m mk in
  if isNaN riskScore then Fin 0 else riskScore.

(** [sectors[idx % 3]] *)
Definition sector_of (idx : nat) : Sector :=
  match (idx mod 3)%nat with
  | 0%nat => Banking
  | 1%nat => Insurance
  | _ => AssetManagement
  end.

(** [connections / Math.max(1, Object.keys(connectionCounts).length)], for
    a [plain] id [k] and a table whose keys are all stored *)
Definition centrality_of (cnt : gmap string nat) (k : string) : number :=
  (of_nat (count_of cnt k) / JS.max (Fin 1) (of_nat (size cnt)))%js.

(** The callback of [currentMetrics.map((m, idx) => ...)]. *)
Definition node_of (t : Tables) (mk : MarketData) (idx : nat) (m : InstitutionMetrics)
    : Institution :=
  {| i_date := m_date m;
     institution_id := m_institution_id m;
     total_assets := m_total_assets m;
     leverage_ratio := m_leverage_ratio m;
     liquidity_ratio := m_liquidity_ratio m;
     roe := m_roe m;
     cds_spread := m_cds_spread m;
     type := if ((m_total_assets m || Fin 0) >? Fin 1000)%js then G_SIB else Regional;
     sector := sector_of idx;
     riskScore := risk_score m mk;
     pagerank := volume_of (nodeVolumes t) (m_institution_id m);
     centrality := centrality_of (connectionCounts t) (m_institution_id m) |}.

(** The callback of [network.filter(...).map(e => ...)]. *)
Definition link_of (e : ExposureNetwork) : Exposure :=
  {| source := creditor_id e;
     target := debtor_id e;
     amount := (exposure_amount e || Fin 0)%js;
     collateral := (collateral_value e || Fin 0)%js |}.

(** The callback of [labels.map(l => ...)]; [||] and [?:] draw lazily. *)
Definition prediction_of (ω : nat → Q) (latest : string) (stableRiskVal : number)
    (l : CrisisLabel) : Rand CrisisPrediction :=
  prob ← (if bool_decide (l_date l = latest) then mret stableRiskVal
          else if truthy (is_crisis l)
               then r ← random ω ; mret (Fin 0.65 + r * Fin 0.1)%js
               else r ← random ω ; mret (Fin 0.25 + r * Fin 0.1)%js) ;
  sev ← (if truthy (crisis_severity l) then mret (crisis_severity l)
         else if truthy (is_crisis l)
              then r ← random ω ; mret (Fin 7 + r * Fin 2)%js
              else r ← random ω ; mret (Fin 3 + r * Fin 2)%js) ;
  mret {| timestamp := l_date l; probability := prob; severity := sev |}.

Definition processCsvData (ω : nat → Q) (metrics : list InstitutionMetrics)
    (network : list ExposureNetwork) (market : list MarketData)
    (labels : list CrisisLabel) : Rand ProcessedData :=
  let latest := latestDate metrics in
  let mk := marketLatest market latest in
  let currentMetrics := filter (λ m, m_date m = latest) metrics in
  let t := aggregate latest network in
  let nodes := imap (node_of t mk) currentMetrics in
  let links := link_of <$> filter (λ e, date e = latest) network in
  stableRiskVal ← calculateStableRisk ω currentMetrics mk ;
  predictions ← mapM (prediction_of ω latest stableRiskVal) labels ;
  mret {| nodes := nodes; links := links; predictions := predictions |}.

(** The result of a run that starts with no draw made. *)
Definition run {A} (c : Rand A) : A := fst (c 0%nat).

(** *** Notions used to state the properties of the tables *)

(** [one_sided f ms]: the column [f] of the rows does not hold infinities
    of both signs. *)
Definition one_sided (f : InstitutionMetrics → number)
    (ms : list InstitutionMetrics) : Prop :=
  Forall (λ m, f m ≠ NInf) ms ∨ Forall (λ m, f m ≠ PInf) ms.

(** The exposure rows of the reference date. *)
Definition rows_at (latest : string) (network : list ExposureNetwork)
    : list ExposureNetwork :=
  filter (λ e, date e = latest) network.

(** [keys_stored latest network]: no reference-date row has [__proto__] as
    an endpoint, so that every endpoint is a key of [connectionCounts]. *)
Definition keys_stored (latest : string) (network : list ExposureNetwork) : Prop :=
  Forall (λ e, debtor_id e ≠ "__proto__" ∧ creditor_id e ≠ "__proto__")
         (rows_at latest network).

(** How many endpoints of the row [e] are [k]: 2 for a self-loop on [k]. *)
Definition touches (k : string) (e : ExposureNetwork) : nat :=
  ((if bool_decide (debtor_id e = k) then 1 else 0)
   + (if bool_decide (creditor_id e = k) then 1 else 0))%nat.

(** [connections latest network k]: the connections of [k], one for each
    endpoint of a reference-date row that is [k]. *)
Definition connections (latest : string) (network : list ExposureNetwork)
    (k : string) : nat :=
  sum_list_with (touches k) (rows_at latest network).

(** The ids with at least one connection. *)
Definition connected (latest : string) (network : list ExposureNetwork) : gset string :=
  list_to_set (rows_at latest network ≫= λ e, [debtor_id e; creditor_id e]).

(** Two rows join the same pair of institutions, in either direction. *)
Definition same_pair (e e' : ExposureNetwork) : Prop :=
  (creditor_id e = creditor_id e' ∧ debtor_id e = debtor_id e')
  ∨ (creditor_id e = debtor_id e' ∧ debtor_id e = creditor_id e').

(** [simple rows]: no self-loop and no two rows on the same pair. *)
Fixpoint simple (rows : list ExposureNetwork) : Prop :=
  match rows with
  | [] => True
  | e :: rest =>
      creditor_id e ≠ debtor_id e
      ∧ Forall (λ e', ¬ same_pair e e') rest
      ∧ simple rest
  end.

(** The counterparties of [k], one entry for each connection. *)
Definition counterparties (k : string) (rows : list ExposureNetwork) : list string :=
  rows ≫= λ e, (if bool_decide (debtor_id e = k) then [creditor_id e] else [])
               ++ (if bool_decide (creditor_id e = k) then [debtor_id e] else []).

End Normalizer.

(** ** Notions used to state further properties of the normalizer *)

Module Measures.

Import Normalizer.

(** [between lo hi x]: [x] is a finite number with [lo <= x < hi]. *)
Definition between (lo hi : Q) (x : number) : Prop :=
  match x with
  | Fin q => lo <= q /\ q < hi
  | _ => False
  end.

(** The rational held by a finite number. *)
Definition value_of (x : number) : Q :=
  match x with Fin q => q | _ => 0 end.

(** The gross volume of [k]: the amounts of the reference-date rows, each
    counted once for every endpoint that is [k]. *)
Definition gross_volume (latest : string) (network : list ExposureNetwork)
    (k : string) : Q :=
  foldr (λ e acc, inject_Z (Z.of_nat (touches k e))
                  * value_of (exposure_amount e || Fin 0)%js + acc)
        0 (rows_at latest network).

(** [finite_le x y]: [x] and [y] are finite numbers with [x <= y]. *)
Definition finite_le (x y : number) : Prop :=
  match x, y with
  | Fin a, Fin b => a <= b
  | _, _ => False
  end.

(** [whole x]: [x] is a non-negative whole number, or is missing. *)
Definition whole (x : number) : Prop :=
  match x with
  | NaN => True
  | Fin q => 0 <= q ∧ inject_Z (Qfloor q) == q
  | _ => False
  end.

(** [2^53]: doubles add whole numbers exactly as long as the sums stay at
    or below it. *)
Definition max_exact : Q := inject_Z (2 ^ 53).

(** [holds x q]: [x] is the finite number of value [q]. *)
Definition holds (x : number) (q : Q) : Prop :=
  ∃ q', x = Fin q' ∧ q' == q.

(** What [processCsvData] promises about the prediction [p] made for the
    label row [l], when [stable] is the systemic risk index. *)
Definition prediction_ok (latest : string) (stable : number)
    (l : CrisisLabel) (p : CrisisPrediction) : Prop :=
  timestamp p = l_date l
  ∧ (l_date l = latest → probability p = stable)
  ∧ (l_date l ≠ latest →
     if truthy (is_crisis l) then within 0.65 0.75 (probability p)
     else within 0.25 0.35 (probability p))
  ∧ (truthy (crisis_severity l) = true → severity p = crisis_severity l)
  ∧ (truthy (crisis_severity l) = false →
     if truthy (is_crisis l) then within 7 9 (severity p)
     else within 3 5 (severity p)).

End Measures.

(** ** Other readers of the cascade result *)

Module Panels.

(** [totalAssetsAtRisk] of the [SimulationPanel] component: the assets of
    the failed ids that are found in the institutions list. *)
Definition totalAssetsAtRisk (institutions : list Institution)
    (failedNodes : list string) : number :=
  foldl (λ total fid,
           match list_find (λ i, institution_id i = fid) institutions with
           | Some (_, inst) => (total + (total_assets inst || Fin 0))%js
           | None => total
           end)
        (Fin 0) failedNodes.

(** [institutions.reduce((a, b) => a + (b.total_assets || 0), 0)] of the
    impact snapshot of the simulator. *)
Definition totalSystemAssets (institutions : list Institution) : number :=
  foldl (λ a b, (a + (total_assets b || Fin 0))%js) (Fin 0) institutions.

(** The [Systemic Fragility] figure of the impact snapshot, in percent. *)
Definition systemicFragility (institutions : list Institution)
    (simResult : option Cascade.SimResult) : number :=
  ((match simResult with Some r => Cascade.totalLoss r | None => NaN end || Fin 0)
   / totalSystemAssets institutions * Fin 100)%js.

End Panels.

(** ** Display names ([generateProfessionalName]) *)

Module Names.

Definition GENERATED_PREFIXES : list string :=
  ["Global"; "Apex"; "Nova"; "Stellar"; "Ironclad"; "Legacy"; "Centurion";
   "Summit"; "Horizon"; "Zenith"].

Definition GENERATED_SUFFIXES : list string :=
  ["Bank"; "Trust"; "Capital"; "Holdings"; "Investments"; "Group"; "Financial";
   "Bancorp"; "Union"; "Credit"].

(** The value of a decimal digit; [None] for every other character, which
    the pattern [\D] removes. *)
Definition digit_of (c : Ascii.ascii) : option N :=
  let n := Ascii.N_of_ascii c in
  if ((48 <=? n) && (n <=? 57))%N then Some (n - 48)%N else None.

(** [id.replace(/\D/g, '')]: the digits of the id, in order. *)
Fixpoint digits (id : string) : list N :=
  match id with
  | EmptyString => []
  | String c rest =>
      match digit_of c with
      | Some d => d :: digits rest
      | None => digits rest
      end
  end.

(** [parseInt(ds) || 0]: the decimal value of the digits, 0 when there is
    none.  The source holds this value in a double, which is exact below
    [2^53]. *)
Definition parse (ds : list N) : N :=
  foldl (λ acc d, 10 * acc + d)%N 0%N ds.

(** [arr[k]] inside a template string: a missing entry prints as
    [undefined]. *)
Definition at_index (arr : list string) (k : N) : string :=
  default "undefined" (arr !! N.to_nat k).

Definition generateProfessionalName (id : string) : string :=
  let num := parse (digits id) in
  let prefix :=
    at_index GENERATED_PREFIXES (num mod N.of_nat (length GENERATED_PREFIXES))%N in
  let suffix :=
    at_index GENERATED_SUFFIXES ((num + 3) mod N.of_nat (length GENERATED_SUFFIXES))%N in
  prefix +:+ " " +:+ suffix.

(** The name that goes with the last digit [d] of an id. *)
Definition name_of_digit (d : N) : string :=
  at_index GENERATED_PREFIXES d +:+ " " +:+ at_index GENERATED_SUFFIXES ((d + 3) mod 10)%N.

End Names.

(** ** The dashboard ([RiskMonitor] and [PredictionPage]) *)

Module Dashboard.

Import Normalizer.

(** *** [RiskMonitor] *)

Definition getRiskColorClass (score : number) : string :=
  if (Fin 61 <=? score)%js then "text-red-500"
  else if (Fin 31 <=? score)%js then "text-orange-500"
  else "text-green-500".

Definition getRiskBgClass (score : number) : string :=
  if (Fin 61 <=? score)%js then "bg-red-500"
  else if (Fin 31 <=? score)%js then "bg-orange-500"
  else "bg-green-500".

(** [getColor] of the [CircularGauge]. *)
Definition getColor (v : number) : string :=
  if (Fin 61 <=? v)%js then "#ef4444"
  else if (Fin 31 <=? v)%js then "#f97316"
  else "#22c55e".

(** [predictions[k]?.probability]: [undefined], read as NaN, when the
    index is [-1] ([None]) or past the end. *)
Definition probability_at (predictions : list CrisisPrediction) (k : option nat) : number :=
  match k with
  | Some k => match predictions !! k with Some p => probability p | None => NaN end
  | None => NaN
  end.

(** [Math.min(predictions.length - 1, k)] as an index; [predictions.length - 1]
    is the case where [k] is large. *)
Definition capped_index (predictions : list CrisisPrediction) (k : nat) : option nat :=
  match length predictions with
  | O => None
  | S m => Some (Nat.min m k)
  end.

Definition last_index (predictions : list CrisisPrediction) : option nat :=
  match length predictions with
  | O => None
  | S m => Some m
  end.

Definition currentRisk (predictions : list CrisisPrediction) : number :=
  (probability_at predictions (last_index predictions) * Fin 100 || Fin 42)%js.

Definition prob3m (predictions : list CrisisPrediction) : number :=
  (probability_at predictions (capped_index predictions 3) * Fin 100 || Fin 28)%js.

Definition prob6m (predictions : list CrisisPrediction) : number :=
  (probability_at predictions (capped_index predictions 6) * Fin 100 || Fin 35)%js.

(** *** [PredictionPage] *)

Record ShapItem : Type := { name : string; value : number }.

Definition INITIAL_SHAP_DATA : list ShapItem :=
  [ {| name := "Leverage Ratio"; value := Fin 4.2 |};
    {| name := "VIX Index"; value := Fin 2.8 |};
    {| name := "CDS Spreads"; value := Fin 1.5 |};
    {| name := "Centrality"; value := Fin 0.8 |};
    {| name := "GDP Growth"; value := Fin (-1.2) |};
    {| name := "Liquidity Ratio"; value := Fin (-3.5) |} ].

(** The [text] and [color] of a severity. *)
Definition getSeverityLabel (s : number) : string * string :=
  if (s <=? Fin 3)%js then ("Light", "text-green-500")
  else if (s <=? Fin 6)%js then ("Moderate", "text-orange-500")
  else ("Severe", "text-red-500").

(** The colour of a bar of the chart: [entry.value > 0 ? '#ef4444' : '#3b82f6']. *)
Definition bar_fill (entry : ShapItem) : string :=
  if (value entry >? Fin 0)%js then "#ef4444" else "#3b82f6".

(** What the effect on [targetDate] sets. *)
Record PageState : Type := {
  shapData : list ShapItem;
  page_severity : number;
  page_prob3m : number;
  page_prob6m : number
}.

(** [Math.min(hi, Math.max(0, x))] *)
Definition clamp_to (hi : Q) (x : number) : number :=
  JS.min (Fin hi) (JS.max (Fin 0) x).

(** The body of the effect: the chart entries are redrawn first, then the
    severity and the two probabilities. *)
Definition randomize (ω : nat → Q) : Rand PageState :=
  randomized ← mapM (λ item,
                       r ← random ω ;
                       mret {| name := name item;
                               value := (value item + (r - Fin 0.5) * Fin 1.5)%js |})
                    INITIAL_SHAP_DATA ;
  r1 ← random ω ;
  r2 ← random ω ;
  r3 ← random ω ;
  mret {| shapData := randomized;
          page_severity := clamp_to 10 (Fin 7.4 + (r1 - Fin 0.5) * Fin 2)%js;
          page_prob3m := clamp_to 100 (Fin 15.2 + (r2 - Fin 0.5) * Fin 5)%js;
          page_prob6m := clamp_to 100 (Fin 28.4 + (r3 - Fin 0.5) * Fin 10)%js |}.

End Dashboard.

(** ** The intervention sandbox ([runTargetedSimulation]) *)

Module Sandbox.

(** [Math.floor] *)
Definition floor (x : number) : number :=
  match x with
  | Fin q => Fin (inject_Z (Qfloor q))
  | _ => x
  end.

Inductive Mode : Type := MANUAL | AI.

(** The regulatory controls. *)
Record Controls : Type := {
  capitalBuffer : number;
  exposureReduction : number;
  liquidityInjection : number
}.

(** [in_range c]: the two sliders are within their ranges, 0 to 20 and 0 to
    50, and the liquidity injection is a number of magnitude at most 10^15. *)
Definition in_range (c : Controls) : Prop :=
  within 0 20 (capitalBuffer c)
  ∧ within 0 50 (exposureReduction c)
  ∧ within (-1000000000000000) 1000000000000000 (liquidityInjection c).

Record Outcome : Type := { prob : number; loss : number; failures : number }.

Record Results : Type := { before : Outcome; after : Outcome }.

Definition baseline : Outcome :=
  {| prob := Fin 85; loss := Fin 89; failures := Fin 12 |}.

(** Steps 1 to 4 of the manual mode for a target with the given assets. *)
Definition manual_reduction (c : Controls) (total_assets : number) : number :=
  let policyIntensity :=
    (capitalBuffer c * Fin 1.5 + exposureReduction c * Fin 0.8
     + liquidityInjection c / Fin 500)%js in
  let assetValue := (total_assets || Fin 500)%js in
  let systemicWeight := (assetValue / Fin 500)%js in
  let reductionPercentage := (policyIntensity * systemicWeight)%js in
  let reductionPercentage :=
    if (reductionPercentage >? Fin 45)%js then Fin 45 else reductionPercentage in
  if (reductionPercentage <? Fin 0.1)%js then Fin 0.1 else reductionPercentage.

(** Step 5. *)
Definition outcome_after (reductionPercentage : number) : Outcome :=
  {| prob := JS.max (Fin 0) (prob baseline - reductionPercentage)%js;
     loss := JS.max (Fin 0) (loss baseline - reductionPercentage * Fin 1.5)%js;
     failures := JS.max (Fin 0)
                   (floor (failures baseline - reductionPercentage / Fin 5)%js) |}.

(** [runTargetedSimulation]: what [setResults] receives, and [None] when
    the manual mode has no target institution. *)
Definition runTargetedSimulation (mode : Mode) (selectedInstitution : option Institution)
    (c : Controls) : option Results :=
  match mode, selectedInstitution with
  | MANUAL, None => None
  | MANUAL, Some inst =>
      Some {| before := baseline;
              after := outcome_after (manual_reduction c (total_assets inst)) |}
  | AI, _ =>
      Some {| before := baseline; after := outcome_after (Fin 42.5) |}
  end.

End Sandbox.

(** ** The graph views ([SmartGraph] and [SystemicSimulator]) *)

Module Views.

Import Cascade.

(** [xs.sort(cmp)].  The sort is stable, and under a comparator that orders
    the elements consistently its result is the one of a stable insertion
    sort: an element stays before the ones that followed it unless the
    comparator is positive on the pair; a NaN result counts as zero. *)
Fixpoint insert_by {A} (cmp : A → A → number) (x : A) (sorted : list A) : list A :=
  match sorted with
  | [] => [x]
  | y :: rest =>
      if (cmp x y >? Fin 0)%js then y :: insert_by cmp x rest else x :: y :: rest
  end.

Definition sort_by {A} (cmp : A → A → number) (xs : list A) : list A :=
  foldr (insert_by cmp) [] xs.

(** [(a, b) => (b.total_assets || 0) - (a.total_assets || 0)] *)
Definition by_assets (a b : Institution) : number :=
  ((total_assets b || Fin 0) - (total_assets a || Fin 0))%js.

(** [new Set(xs)] *)
Definition Set_of (xs : list string) : list string := foldl Set_add [] xs.

(** *** [graphData] of [SmartGraph] *)

Record LabelledNode : Type := { node : Institution; showLabel : bool }.

Record SmartGraphData : Type := {
  nodes : list LabelledNode;
  links : list Exposure
}.

Definition smartGraphData (nodes : list Institution) (links : list Exposure)
    : SmartGraphData :=
  if (length nodes =? 0)%nat then {| nodes := []; links := [] |}
  else
    let sortedByAssets := sort_by by_assets nodes in
    let systemicCore := take 200 sortedByAssets in
    let systemicCoreIds := Set_of (institution_id <$> systemicCore) in
    let dangerZone :=
      filter (λ n, ((riskScore n || Fin 0) >? Fin 80)%js
                   && negb (Set_has systemicCoreIds (institution_id n)) = true) nodes in
    let filteredNodes := systemicCore ++ dangerZone in
    let filteredNodeIds := Set_of (institution_id <$> filteredNodes) in
    let top10Ids := Set_of (institution_id <$> take 10 sortedByAssets) in
    let filteredLinks :=
      filter (λ l, Set_has filteredNodeIds (source l)
                   && Set_has filteredNodeIds (target l)
                   && ((amount l || Fin 0) >? Fin 5)%js = true) links in
    {| nodes := (λ n, {| node := n; showLabel := Set_has top10Ids (institution_id n) |})
                <$> filteredNodes;
       links := filteredLinks |}.

(** The institutions of the nodes of a graph. *)
Definition drawn (g : SmartGraphData) : list Institution := node <$> nodes g.

(** *** [graphData] and [topBanksForSelect] of [SystemicSimulator] *)

Record GraphData : Type := {
  g_nodes : list Institution;
  g_links : list Exposure
}.

(** The ids added for one exposure when a result is shown. *)
Definition add_neighbours (failedNodes : list string) (activeIds : list string)
    (e : Exposure) : list string :=
  if Set_has failedNodes (target e) || Set_has failedNodes (source e)
  then Set_add (Set_add activeIds (source e)) (target e)
  else activeIds.

Definition graphData (institutions : list Institution) (exposures : list Exposure)
    (simResult : option SimResult) : GraphData :=
  let top50 := take 50 (sort_by by_assets institutions) in
  let activeIds := Set_of (institution_id <$> top50) in
  let activeIds :=
    match simResult with
    | Some r =>
        let activeIds := foldl Set_add activeIds (failedNodes r) in
        foldl (add_neighbours (failedNodes r)) activeIds exposures
    | None => activeIds
    end in
  let filteredNodes :=
    filter (λ i, Set_has activeIds (institution_id i) = true) institutions in
  let nodeIds := Set_of (institution_id <$> filteredNodes) in
  let filteredLinks :=
    filter (λ e, Set_has nodeIds (source e) && Set_has nodeIds (target e) = true)
           exposures in
  {| g_nodes := filteredNodes; g_links := filteredLinks |}.

Definition topBanksForSelect (institutions : list Institution) : list Institution :=
  take 50 (sort_by by_assets institutions).

(** The assets an institution is ranked by: [total_assets || 0]. *)
Definition ranked_assets (i : Institution) : number := (total_assets i || Fin 0)%js.

(** [no_smaller a b]: the ranked assets of [a] are not below those of [b]. *)
Definition no_smaller (a b : Institution) : Prop :=
  (ranked_assets a <? ranked_assets b)%js = false.

End Views.

(** ** Mock data ([generateMockExposures]) *)

Module Mock.

Import Normalizer.

(** [Math.random()] as a rational: a draw is a finite number. *)
Definition draw (ω : nat → Q) : Rand Q := λ n, (ω n, S n).

(** [institutions[k]] for an integer [k]: [undefined] outside the array. *)
Definition at_Z (institutions : list Institution) (k : Z) : option Institution :=
  if (k <? 0)%Z then None else institutions !! Z.to_nat k.

(** The [for] loop of one institution, with [numLinks] rounds left.  Reading
    [target.institution_id] throws when [target] is [undefined]. *)
Fixpoint links_of (ω : nat → Q) (institutions : list Institution) (inst : Institution)
    (numLinks : nat) (exposures : list Exposure) : Rand (completion (list Exposure)) :=
  match numLinks with
  | O => mret (Normal exposures)
  | S rest =>
      r ← draw ω ;
      match at_Z institutions (Qfloor (r * inject_Z (Z.of_nat (length institutions)))) with
      | None => mret Throw
      | Some target =>
          if bool_decide (institution_id target ≠ institution_id inst) then
            a ← draw ω ;
            links_of ω institutions inst rest
              (exposures ++ [ {| source := institution_id inst;
                                 target := institution_id target;
                                 amount := Fin (a * 50 + 5);
                                 collateral := NaN |} ])
          else links_of ω institutions inst rest exposures
      end
  end.

(** [institutions.forEach(inst => ...)] over the institutions still to visit. *)
Fixpoint for_each (ω : nat → Q) (institutions todo : list Institution)
    (exposures : list Exposure) : Rand (completion (list Exposure)) :=
  match todo with
  | [] => mret (Normal exposures)
  | inst :: rest =>
      r ← draw ω ;
      let numLinks := (Qfloor (r * 3) + 1)%Z in
      c ← links_of ω institutions inst (Z.to_nat numLinks) exposures ;
      match c with
      | Normal exposures' => for_each ω institutions rest exposures'
      | Throw => mret Throw
      end
  end.

Definition generateMockExposures (ω : nat → Q) (institutions : list Institution)
    : Rand (completion (list Exposure)) :=
  for_each ω institutions institutions [].

(** What every generated exposure satisfies. *)
Definition mock_link_ok (institutions : list Institution) (e : Exposure) : Prop :=
  source e ≠ target e
  ∧ source e ∈ Cascade.ids institutions
  ∧ target e ∈ Cascade.ids institutions
  ∧ Measures.between 5 55 (amount e).

End Mock.

(** ** The analysis engine of the application ([runAnalysisEngine]) *)

Module Engine.

Import Normalizer.

(** The four datasets the engine reads; [None] is one not yet uploaded. *)
Record UploadedFiles : Type := {
  u_metrics : option (list InstitutionMetrics);
  u_network : option (list ExposureNetwork);
  u_market : option (list MarketData);
  u_labels : option (list CrisisLabel)
}.

(** What the engine sets, and what it hands to the policy memo. *)
Record Analysis : Type := {
  a_institutions : list Institution;
  a_exposures : list Exposure;
  a_predictions : list CrisisPrediction;
  a_memo_institutions : list Institution;
  a_memo_probability : number
}.

Section engine.

(** The date [i] months after 2026-02-14 as the [Date] object prints it. *)
Variable month_stamp : nat → string.

(** [predictions.slice(0, 10).map((p, i) => ({ ...p, timestamp: ... }))] *)
Definition adjustedPredictions (predictions : list CrisisPrediction)
    : list CrisisPrediction :=
  imap (λ i p, {| timestamp := month_stamp i; probability := probability p;
                  severity := severity p |})
       (take 10 predictions).

(** The body of the engine once the four datasets are there. *)
Definition analyse (ω : nat → Q) (metrics : list InstitutionMetrics)
    (network : list ExposureNetwork) (market : list MarketData)
    (labels : list CrisisLabel) : Rand Analysis :=
  d ← processCsvData ω metrics network market labels ;
  let adjusted := adjustedPredictions (predictions d) in
  mret {| a_institutions := nodes d;
          a_exposures := links d;
          a_predictions := adjusted;
          a_memo_institutions := take 5 (nodes d);
          a_memo_probability :=
            (Dashboard.probability_at adjusted (Dashboard.last_index adjusted)
             || Fin 0)%js |}.

Definition runAnalysisEngine (ω : nat → Q) (uploadedData : UploadedFiles)
    : Rand (option Analysis) :=
  match u_metrics uploadedData, u_network uploadedData,
        u_market uploadedData, u_labels uploadedData with
  | Some metrics, Some network, Some market, Some labels =>
      a ← analyse ω metrics network market labels ; mret (Some a)
  | _, _, _, _ => mret None
  end.

End engine.

End Engine.

(** ** Notions used in the proofs *)

Module Notions.

Import Cascade Measures Views.

(** *** Of the cascade *)

(** [chained exposures rs]: every member of a round is the creditor of a
    member of the round before. *)
Definition chained (exposures : list Exposure) (rs : list (list string)) : Prop :=
  ∀ k prev next x,
    rs !! k = Some prev → rs !! S k = Some next → x ∈ next →
    ∃ link, link ∈ exposures ∧ source link = x ∧ target link ∈ prev.

(** The assets an institution counts for, as a rational. *)
Definition assets_of (i : Institution) : Q := value_of (total_assets i || Fin 0)%js.

(** The assets counted for a failed id: those of the first institution
    with that id. *)
Definition found_assets (institutions : list Institution) (fid : string) : Q :=
  match list_find (λ i, institution_id i = fid) institutions with
  | Some (_, i) => assets_of i
  | None => 0
  end.

Definition loss_sum (institutions : list Institution) (failed : list string) : Q :=
  foldr (λ fid acc, found_assets institutions fid + acc) 0 failed.

Definition assets_sum (institutions : list Institution) : Q :=
  foldr (λ i acc, assets_of i + acc) 0 institutions.

(** No institution has negative or infinite assets. *)
Definition sound_assets (institutions : list Institution) : Prop :=
  Forall (λ i, (total_assets i <? Fin 0)%js = false ∧ total_assets i ≠ PInf) institutions.

(** *** Of the intervention sandbox *)

(** The two constraints of step 4 on a rational. *)
Definition constrain (x : Q) : Q :=
  if Qltb 45 x then 45 else if Qltb x 0.1 then 0.1 else x.

(** The asset value of step 2 for finite or missing assets. *)
Definition asset_value (total_assets : number) : Q :=
  match total_assets with
  | Fin a => if Qeq_bool a 0 then 500 else a
  | _ => 500
  end.

(** *** Of the network graph *)

(** The danger zone: the nodes with a risk above 80 whose id is not an id
    of the systemic core. *)
Definition dangerZone (nodes : list Institution) : list Institution :=
  filter (λ n, ((riskScore n || Fin 0) >? Fin 80)%js
               && negb (Set_has (Set_of (ids (take 200 (sort_by by_assets nodes))))
                                (institution_id n)) = true) nodes.

End Notions.

(** ** Sample data *)

Module Samples.

(** An institution with the given id, total assets and leverage ratio. *)
Definition bank (i : string) (ta lev : Q) : Institution :=
  {| i_date := "2026-02-14"; institution_id := i;
     total_assets := Fin ta; leverage_ratio := Fin lev;
     liquidity_ratio := Fin 1; roe := Fin 0.1; cds_spread := Fin 100;
     type := Regional; sector := Banking;
     riskScore := Fin 0; pagerank := Fin 0; centrality := Fin 0 |}.

(** [loan c d a]: creditor [c] lent [a] to debtor [d]. *)
Definition loan (c d : string) (a : Q) : Exposure :=
  {| source := c; target := d; amount := Fin a; collateral := Fin 0 |}.

(** The three institutions of the example scenario: equity 10 each. *)
Definition three_banks : list Institution :=
  [bank "A" 100 10; bank "B" 100 10; bank "C" 100 10].

(** A metrics row and an exposure row of the reference date. *)
Definition row (i : string) (ta lev liq cds : number) : InstitutionMetrics :=
  {| m_date := "2026-02-14"; m_institution_id := i;
     m_total_assets := ta; m_leverage_ratio := lev; m_liquidity_ratio := liq;
     m_roe := Fin 0.1; m_cds_spread := cds |}.

Definition edge (c d : string) (a : Q) : ExposureNetwork :=
  {| date := "2026-02-14"; creditor_id := c; debtor_id := d;
     exposure_amount := Fin a; collateral_value := NaN |}.

Definition calm_market : MarketData :=
  {| k_date := "2026-02-14"; vix_index := Fin 25;
     yield_curve_slope := Fin 0.5; gdp_growth := Fin 2 |}.

(** An oracle whose every draw is one half. *)
Definition half : nat → Q := λ _, 0.5.

(** The controls the sandbox starts with in the manual mode. *)
Definition default_controls : Sandbox.Controls :=
  {| Sandbox.capitalBuffer := Fin 2.5; Sandbox.exposureReduction := Fin 15;
     Sandbox.liquidityInjection := Fin 250 |}.

(** A label row of the month before the reference date, flagged as a crisis. *)
Definition crisis_label : CrisisLabel :=
  {| l_date := "2026-01-14"; is_crisis := Fin 1; crisis_severity := NaN |}.

(** A history of two predictions. *)
Definition two_predictions : list CrisisPrediction :=
  [ {| timestamp := "2026-01-14"; probability := Fin 0.3; severity := Fin 4 |};
    {| timestamp := "2026-02-14"; probability := Fin 0.5; severity := Fin 4 |} ].

End Samples.

(** * Properties *)

(** ** Facts about numbers *)

Module JSFacts.

Lemma Qle_bool_false (a b : Q) : Qle_bool a b = false ↔ b < a.
Proof.
  split; intros H.
  - apply Qnot_le_lt. intros Hle. apply Qle_bool_iff in Hle. congruence.
  - destruct (Qle_bool a b) eqn:E; [|done].
    apply Qle_bool_iff in E. exfalso. apply (Qlt_not_le _ _ H E).
Qed.

Lemma Qeq_bool_false (a b : Q) : Qeq_bool a b = false ↔ ¬ a == b.
Proof.
  split; intros H.
  - intros Heq. apply Qeq_bool_iff in Heq. congruence.
  - destruct (Qeq_bool a b) eqn:E; [|done].
    apply Qeq_bool_iff in E. contradiction.
Qed.

(** The value of [x || d] is never NaN when [d] is a number. *)
Lemma or_not_NaN (x : number) (d : Q) : (x || Fin d)%js ≠ NaN.
Proof.
  destruct x as [| | |q]; unfold JS.or; simpl; try done.
  by destruct (negb _).
Qed.

Lemma Qltb_false (a b : Q) : Qltb a b = false ↔ b <= a.
Proof.
  unfold Qltb. rewrite negb_false_iff. apply Qle_bool_iff.
Qed.

Lemma Qltb_true (a b : Q) : Qltb a b = true ↔ a < b.
Proof.
  unfold Qltb. rewrite negb_true_iff. apply Qle_bool_false.
Qed.

Lemma Qeq_bool_pos (c : Q) : 0 < c → Qeq_bool c 0 = false.
Proof. intros Hc. apply Qeq_bool_false. lra. Qed.

Lemma Qmult_le_1 (t w : Q) : t <= 1 → 0 <= w → t * w <= w.
Proof.
  intros Ht Hw. apply Qle_trans with (1 * w).
  - by apply Qmult_le_compat_r.
  - rewrite Qmult_1_l. apply Qle_refl.
Qed.

Lemma within_nonneg (lo hi : Q) (x : number) : 0 <= lo → within lo hi x → nonneg x.
Proof. destruct x; simpl; try done. lra. Qed.

Lemma within_weaken (lo hi lo' hi' : Q) (x : number) :
  lo' <= lo → hi <= hi' → within lo hi x → within lo' hi' x.
Proof. destruct x; simpl; try done. lra. Qed.

Lemma within_leb (lo hi : Q) (x : number) : within lo hi x → (x <=? Fin hi)%js = true.
Proof. destruct x; simpl; try done. intros [_ H]. by apply Qle_bool_iff. Qed.

Lemma add_nonneg (x y : number) : nonneg x → nonneg y → nonneg (x + y).
Proof. destruct x, y; simpl; try done. lra. Qed.

Lemma add_within (a b c d : Q) (x y : number) :
  within a b x → within c d y → within (a + c) (b + d) (x + y).
Proof. destruct x, y; simpl; try done. lra. Qed.

(** A field that is not negative, once defaulted, is non-negative. *)
Lemma or_nonneg (f : number) (d : Q) :
  0 <= d → JS.ltb f (Fin 0) = false → nonneg (f || Fin d)%js.
Proof.
  intros Hd Hf. destruct f as [| | |q]; unfold JS.or; simpl in *; try done.
  destruct (negb (Qeq_bool q 0)); simpl; [|done]. by apply Qltb_false.
Qed.

(** [Math.min(c, x)] is at most [c] unless it is NaN. *)
Lemma min_cap_leb (c : Q) (x : number) :
  x ≠ NaN → (JS.min (Fin c) x <=? Fin c)%js = true.
Proof.
  intros Hx. destruct x as [| | |q]; simpl; try done.
  - apply Qle_bool_iff. lra.
  - destruct (Qle_bool c q) eqn:E; simpl; apply Qle_bool_iff; [lra|].
    apply Qle_bool_false in E. lra.
Qed.

Lemma min_cap_within (c : Q) (x : number) :
  0 <= c → nonneg x → within 0 c (JS.min (Fin c) x).
Proof.
  intros Hc Hx. destruct x as [| | |q]; simpl in *; try done.
  - lra.
  - destruct (Qle_bool c q) eqn:E; simpl; [lra|].
    apply Qle_bool_false in E. lra.
Qed.


(** On a non-negative input the capped sub-score lies between 0 and its
    weight. *)
Lemma capped_within (x : number) (c w : Q) :
  0 < c → 0 < w → nonneg x →
  within 0 w (JS.min (x / Fin c) (Fin 1) * Fin w)%js.
Proof.
  intros Hc Hw Hx. destruct x as [| | |q]; simpl in *; try done.
  - assert (Qltb c 0 = false) as -> by (apply Qltb_false; lra). simpl. lra.
  - rewrite (Qeq_bool_pos c Hc). simpl.
    assert (Hdiv : 0 <= q / c) by (apply Qle_shift_div_l; lra).
    destruct (Qle_bool (q / c) 1) eqn:E; simpl; [|lra].
    apply Qle_bool_iff in E. split.
    + apply Qmult_le_0_compat; lra.
    + by apply Qmult_le_1; [|lra].
Qed.

End JSFacts.

(** ** The cascade *)

Module CascadeProofs.

Import Cascade JSFacts.

Lemma foldl_preserves {A B} (P : A → Prop) (f : A → B → A) (l : list B) (a : A) :
  (∀ a x, x ∈ l → P a → P (f a x)) → P a → P (foldl f a l).
Proof.
  revert a. induction l as [|x l IH]; intros a Hf Ha; simpl; [done|].
  apply IH.
  - intros a' y Hy. apply Hf. by right.
  - apply Hf; [by left | done].
Qed.

(** An invariant of [process_link] is an invariant of a whole round. *)
Lemma round_preserves (P : Work → Prop) exposures shock (s : Loop) :
  (∀ w link, link ∈ exposures → P w → P (process_link shock w link)) →
  P {| failed := l_failed s; state := l_state s; nextFailures := [] |} →
  P (round exposures shock s).
Proof.
  intros Hstep H0. unfold round.
  apply foldl_preserves; [|done].
  intros w fId _ Hw. unfold process_failed.
  apply foldl_preserves; [|done].
  intros w' link Hin. apply Hstep.
  by apply list_elem_of_filter in Hin as [_ ?].
Qed.

(** An invariant of [process_link] along the links whose debtor failed in
    the previous round is an invariant of the round. *)
Lemma round_preserves_debtor (P : Work → Prop) exposures shock (s : Loop) :
  (∀ w link, link ∈ exposures → target link ∈ l_currentFailed s →
             P w → P (process_link shock w link)) →
  P {| failed := l_failed s; state := l_state s; nextFailures := [] |} →
  P (round exposures shock s).
Proof.
  intros Hstep H0. unfold round.
  apply foldl_preserves; [|done].
  intros w fId HfId Hw. unfold process_failed.
  apply foldl_preserves; [|done].
  intros w' link [Ht Hin]%list_elem_of_filter. apply Hstep; [done|].
  by rewrite Ht.
Qed.

(** The rule of the [while] loop: [Inv] holds at the loop head, [Post]
    where the loop is left, by the condition or by [break]. *)
Lemma while_loop_rule (Inv Post : Loop → nat → Prop) exposures shock :
  (∀ s b, Inv s b → loop_cond s = false → Post s b) →
  (∀ s b, Inv s b → loop_cond s = true →
          nextFailures (round exposures shock s) = [] →
          Post (after_break s (round exposures shock s)) (S b)) →
  (∀ s b, Inv s b → loop_cond s = true →
          nextFailures (round exposures shock s) ≠ [] →
          Inv (after_round s (round exposures shock s)) (S b)) →
  ∀ fuel s b s' b',
    Inv s b → while_loop exposures shock fuel s b = Some (s', b') → Post s' b'.
Proof.
  intros Hexit Hbreak Hnext fuel.
  induction fuel as [|fuel IH]; intros s b s' b' HI Hrun; simpl in Hrun; [done|].
  destruct (loop_cond s) eqn:Hc.
  - destruct (nextFailures (round exposures shock s)) as [|x nf] eqn:Hnf; simpl in Hrun.
    + injection Hrun as <- <-. by apply Hbreak.
    + eapply IH; [|exact Hrun]. apply Hnext; [done..|]. by rewrite Hnf.
  - injection Hrun as <- <-. by apply Hexit.
Qed.

Lemma while_loop_unfold exposures shock (fuel : nat) (s : Loop) (b : nat) :
  while_loop exposures shock (S fuel) s b
  = if loop_cond s then
      if (length (nextFailures (round exposures shock s)) =? 0)%nat
      then Some (after_break s (round exposures shock s), S b)
      else while_loop exposures shock fuel (after_round s (round exposures shock s)) (S b)
    else Some (s, b).
Proof. reflexivity. Qed.

(** With more fuel than rounds left below the cap, the loop returns, and
    the amount of fuel does not matter. *)
Lemma while_loop_fuel exposures shock (f1 f2 : nat) (s : Loop) (b : nat) :
  (20 - l_depth s < f1)%nat → (20 - l_depth s < f2)%nat →
  while_loop exposures shock f1 s b = while_loop exposures shock f2 s b
  ∧ is_Some (while_loop exposures shock f1 s b).
Proof.
  revert f2 s b. induction f1 as [|f1 IH]; intros f2 s b H1 H2; [lia|].
  destruct f2 as [|f2]; [lia|]. simpl.
  destruct (loop_cond s) eqn:Hc; [|eauto].
  destruct (length (nextFailures (round exposures shock s)) =? 0)%nat; [eauto|].
  unfold loop_cond in Hc. apply andb_true_iff in Hc as [_ Hd].
  apply Nat.ltb_lt in Hd.
  apply IH; simpl; lia.
Qed.

Lemma Set_add_fresh (s : list string) (x : string) : x ∉ s → Set_add s x = s ++ [x].
Proof. intros H. unfold Set_add, Set_has. by rewrite bool_decide_eq_false_2. Qed.

Lemma Set_add_prefix (s : list string) (x : string) : s `prefix_of` Set_add s x.
Proof.
  unfold Set_add. destruct (Set_has s x); [done|]. by apply prefix_app_r.
Qed.

Lemma process_link_effect shock w link :
  link_effect shock w link (process_link shock w link).
Proof.
  unfold process_link, Set_has. case_bool_decide as Hin.
  - constructor. by left.
  - destruct (list_find _ (state w)) as [[k creditor]|] eqn:Hf.
    + destruct (_ <=? _)%js eqn:Hle.
      * rewrite Set_add_fresh by done. by eapply link_failed.
      * by eapply link_charged.
    + constructor. by right.
Qed.

Section run.

Context (institutions : list Institution) (exposures : list Exposure).
Context (startId : string) (shock : number).

(** During a round the failed set is the one at the start of the round
    followed by the failures of the round, without repetition. *)
Lemma round_failed_split (s : Loop) :
  NoDup (l_failed s) →
  failed (round exposures shock s)
    = l_failed s ++ nextFailures (round exposures shock s)
  ∧ NoDup (failed (round exposures shock s)).
Proof.
  intros Hnd.
  apply (round_preserves
           (λ w, failed w = l_failed s ++ nextFailures w ∧ NoDup (failed w))).
  - intros w link _ [Heq Hw].
    destruct (process_link_effect shock w link); simpl; [done..|].
    split; [by rewrite Heq, app_assoc|].
    apply NoDup_app. split_and!; [done| |apply NoDup_singleton].
    by intros x Hx ->%list_elem_of_singleton.
  - simpl. by rewrite app_nil_r.
Qed.

Lemma round_failed_prefix (s : Loop) :
  l_failed s `prefix_of` failed (round exposures shock s).
Proof.
  apply (round_preserves (λ w, l_failed s `prefix_of` failed w)); [|done].
  intros w link _ Hw.
  destruct (process_link_effect shock w link); simpl; [done..|].
  by apply prefix_app_r.
Qed.

(** A round charges state entries in place: the ids of the state array do
    not change, and a creditor that fails has an entry in it. *)
Lemma round_members (s : Loop) (known : list string) :
  (∀ x, x ∈ l_failed s → x = startId ∨ x ∈ known) →
  id <$> l_state s = known →
  (∀ x, x ∈ failed (round exposures shock s) → x = startId ∨ x ∈ known)
  ∧ id <$> state (round exposures shock s) = known.
Proof.
  intros Hf Hs.
  apply (round_preserves
           (λ w, (∀ x, x ∈ failed w → x = startId ∨ x ∈ known)
                 ∧ id <$> state w = known)); [|done].
  intros w link _ [Hw Hst].
  destruct (process_link_effect shock w link) as [|k c e' _ Hfind _ _|k c e' _ Hfind _ _];
    simpl; [done|..];
    apply list_find_Some in Hfind as (Hk & Hid & _);
    (assert (Hkeep : id <$> <[k:={| id := id c; equity := e'; assets := assets c |}]> (state w)
                     = known);
     [rewrite list_fmap_insert; simpl; rewrite list_insert_id; [done|];
      by rewrite list_lookup_fmap, Hk|]).
  - done.
  - split; [|done].
    intros x [Hx | ->%list_elem_of_singleton]%elem_of_app; [by apply Hw|].
    right. rewrite <- Hst, <- Hid. apply list_elem_of_fmap_2.
    by eapply list_elem_of_lookup_2.
Qed.

(** A write-off of [amount * 0] leaves an equity afloat: the product is
    zero, or NaN when the amount is infinite. *)
Lemma afloat_zero_shock (e a : number) :
  afloat e → afloat (e - (a || Fin 0) * Fin 0)%js.
Proof.
  intros He.
  assert (Hl : ((a || Fin 0) * Fin 0)%js = NaN
               ∨ ∃ z, ((a || Fin 0) * Fin 0)%js = Fin z ∧ z == 0).
  { destruct a as [| | |q]; unfold JS.or; simpl.
    - right. eexists. split; [done | lra].
    - by left.
    - by left.
    - right. destruct (negb (Qeq_bool q 0)); simpl; eexists; (split; [done | lra]). }
  destruct Hl as [-> | (z & -> & Hz)].
  - by destruct e.
  - destruct e as [| | |q]; try done. simpl in *. lra.
Qed.

Lemma afloat_not_failed (e : number) : afloat e → (e <=? Fin 0)%js = false.
Proof.
  destruct e as [| | |q]; try done. simpl. intros Hq.
  apply Qle_bool_false. assert (0 < min_double) by reflexivity. lra.
Qed.

(** With zero shock, a round that starts from the start institution alone
    and reads only entries that are afloat records no failure. *)
Lemma round_zero_shock (s : Loop) :
  shock = Fin 0 →
  l_failed s = [startId] → l_currentFailed s = [startId] →
  read_afloat (λ x, ∃ link, link ∈ exposures ∧ target link = startId
                            ∧ source link ≠ startId ∧ source link = x)
              (l_state s) →
  failed (round exposures shock s) = l_failed s
  ∧ nextFailures (round exposures shock s) = [].
Proof.
  intros -> Hfailed Hcurrent Hs.
  set (known := λ x, ∃ link, link ∈ exposures ∧ target link = startId
                             ∧ source link ≠ startId ∧ source link = x) in *.
  cut (failed (round exposures (Fin 0) s) = l_failed s
       ∧ nextFailures (round exposures (Fin 0) s) = []
       ∧ read_afloat known (state (round exposures (Fin 0) s))); [tauto|].
  apply (round_preserves_debtor
           (λ w, failed w = l_failed s ∧ nextFailures w = []
                 ∧ read_afloat known (state w))); [|done].
  intros w link Hin Htarget (Hf & Hn & Hst).
  rewrite Hcurrent in Htarget. apply list_elem_of_singleton in Htarget.
  destruct (process_link_effect (Fin 0) w link)
    as [|k c e' Hout Hfind -> Hle|k c e' Hout Hfind -> Hle]; simpl; [done|..];
    apply list_find_Some in Hfind as (Hk & Hid & Hfirst);
    (assert (afloat (equity c)) as Hc;
     [apply (Hst k c Hk);
      [exists link; split_and!; [done..| |done];
       intros E; apply Hout; rewrite Hf, Hfailed, E; by left
      |intros i y Hy Hi; rewrite Hid; exact (Hfirst i y Hy Hi)]|]).
  - split_and!; [done..|].
    intros j c' Hj Hknown Hbefore.
    destruct (decide (j = k)) as [->|Hjk].
    + rewrite list_lookup_insert_eq in Hj by (by eapply lookup_lt_Some).
      injection Hj as <-. simpl. by apply afloat_zero_shock.
    + rewrite list_lookup_insert_ne in Hj by done.
      apply (Hst j c' Hj Hknown). intros i y Hy Hi.
      destruct (decide (i = k)) as [->|Hik].
      * rewrite Hk in Hy. injection Hy as <-.
        specialize (Hbefore k _ (list_lookup_insert_eq _ _ _ (lookup_lt_Some _ _ _ Hk)) Hi).
        done.
      * apply (Hbefore i y); [|done]. by rewrite list_lookup_insert_ne.
  - by rewrite (afloat_not_failed _ (afloat_zero_shock _ (amount link) Hc)) in Hle.
Qed.

(** *** Facts about a completed loop *)

Lemma loop_returns (fuel : nat) :
  (21 ≤ fuel)%nat →
  while_loop exposures shock fuel (initial_loop institutions startId) 0
    = while_loop exposures shock 21 (initial_loop institutions startId) 0
  ∧ is_Some (while_loop exposures shock 21 (initial_loop institutions startId) 0).
Proof.
  intros Hfuel.
  destruct (while_loop_fuel exposures shock fuel 21
              (initial_loop institutions startId) 0) as [Heq Hsome];
    [simpl; lia..|].
  split; [done|]. by rewrite <- Heq.
Qed.

Lemma loop_bounds (fuel : nat) (s : Loop) (b : nat) :
  while_loop exposures shock fuel (initial_loop institutions startId) 0 = Some (s, b) →
  (b ≤ 20)%nat ∧ l_rounds s !! 0%nat = Some [startId]
  ∧ length (l_rounds s) = S (l_depth s) ∧ (l_depth s ≤ 20)%nat.
Proof.
  apply (while_loop_rule
           (λ s b, b = l_depth s ∧ l_rounds s !! 0%nat = Some [startId]
                   ∧ length (l_rounds s) = S (l_depth s) ∧ (l_depth s ≤ 20)%nat)
           (λ s b, (b ≤ 20)%nat ∧ l_rounds s !! 0%nat = Some [startId]
                   ∧ length (l_rounds s) = S (l_depth s) ∧ (l_depth s ≤ 20)%nat)
           exposures shock); [| | |simpl; split_and!; done || lia].
  - intros s0 b0 (-> & ? & ? & ?) _. done.
  - intros s0 b0 (-> & ? & ? & ?) Hc _. simpl.
    apply andb_true_iff in Hc as [_ Hd%Nat.ltb_lt]. split_and!; [lia|done..].
  - intros s0 b0 (-> & H0 & Hlen & ?) Hc _. simpl.
    apply andb_true_iff in Hc as [_ Hd%Nat.ltb_lt].
    split_and!; [done| |rewrite length_app; simpl; lia|lia].
    rewrite lookup_app_l; [done | lia].
Qed.

Lemma loop_partition (fuel : nat) (s : Loop) (b : nat) :
  while_loop exposures shock fuel (initial_loop institutions startId) 0 = Some (s, b) →
  l_failed s = concat (l_rounds s) ∧ NoDup (l_failed s).
Proof.
  apply (while_loop_rule
           (λ s _, l_failed s = concat (l_rounds s) ∧ NoDup (l_failed s))
           (λ s _, l_failed s = concat (l_rounds s) ∧ NoDup (l_failed s))
           exposures shock).
  - done.
  - intros s0 _ [Heq Hnd] _ Hnf. simpl.
    destruct (round_failed_split s0 Hnd) as [Hsplit ?].
    rewrite Hnf, app_nil_r in Hsplit. split; [congruence | done].
  - intros s0 _ [Heq Hnd] _ _. simpl.
    destruct (round_failed_split s0 Hnd) as [Hsplit ?].
    split; [|done].
    rewrite concat_app. simpl. rewrite app_nil_r. congruence.
  - simpl. split; [done | apply NoDup_singleton].
Qed.

Lemma loop_members (fuel : nat) (s : Loop) (b : nat) :
  while_loop exposures shock fuel (initial_loop institutions startId) 0 = Some (s, b) →
  ∀ x, x ∈ l_failed s → x = startId ∨ x ∈ ids institutions.
Proof.
  intros Hrun.
  cut ((∀ x, x ∈ l_failed s → x = startId ∨ x ∈ ids institutions)
       ∧ id <$> l_state s = ids institutions); [tauto|].
  revert Hrun.
  apply (while_loop_rule
           (λ s _, (∀ x, x ∈ l_failed s → x = startId ∨ x ∈ ids institutions)
                   ∧ id <$> l_state s = ids institutions)
           (λ s _, (∀ x, x ∈ l_failed s → x = startId ∨ x ∈ ids institutions)
                   ∧ id <$> l_state s = ids institutions)
           exposures shock).
  - done.
  - intros s0 _ [Hf Hs] _ _. simpl. by apply round_members.
  - intros s0 _ [Hf Hs] _ _. simpl. by apply round_members.
  - simpl. split.
    + intros x ->%list_elem_of_singleton. by left.
    + unfold initial_state, ids. by rewrite <- list_fmap_compose.
Qed.

End run.

(** Lists whose concatenation has no repetition are pairwise disjoint. *)
Lemma NoDup_concat_disjoint (ls : list (list string)) (i j : nat) (li lj : list string) :
  NoDup (concat ls) → i ≠ j → ls !! i = Some li → ls !! j = Some lj →
  ∀ x, x ∈ li → x ∈ lj → False.
Proof.
  revert i j. induction ls as [|l ls IH]; intros i j Hnd Hij Hi Hj x Hxi Hxj; [done|].
  simpl in Hnd. apply NoDup_app in Hnd as (_ & Hdisj & Hnd).
  assert (Hin : ∀ k lk, ls !! k = Some lk → x ∈ lk → x ∈ concat ls).
  { intros k lk Hk Hx. apply list_elem_of_In, in_concat. exists lk.
    split; apply list_elem_of_In; [by eapply list_elem_of_lookup_2 | done]. }
  destruct i as [|i], j as [|j]; simpl in *; [done|..].
  - injection Hi as ->. eapply Hdisj; eauto.
  - injection Hj as ->. eapply Hdisj; eauto.
  - eapply (IH i j); eauto.
Qed.

(** *** The example scenarios *)

Import Samples.

Example scenario_one_creditor :
  runSimulation three_banks [loan "B" "A" 60] "A" (Fin 1)
  = Completed {| failedNodes := ["A"; "B"]; rounds := [["A"]; ["B"]];
                 totalLoss := Fin 200; depth := 1 |} 2.
Proof. vm_compute. reflexivity. Qed.

Example scenario_no_creditor :
  runSimulation three_banks [] "A" (Fin 0.5)
  = Completed {| failedNodes := ["A"]; rounds := [["A"]];
                 totalLoss := Fin 100; depth := 0 |} 1.
Proof. vm_compute. reflexivity. Qed.

(** *** Termination and the round cap *)

(** C1: the simulation terminates within the round cap.  Twenty-one tests
    of the loop condition always suffice and more fuel changes nothing; the
    run is either skipped on an empty start id or completes after at most 20
    executions of the loop body, with round 0 equal to [[startId]] and at
    most 20 further rounds recorded (21 in total). *)
Theorem cascade_terminates_within_21_rounds
    (institutions : list Institution) (exposures : list Exposure)
    (startId : string) (shock : number) (fuel : nat) :
  (21 ≤ fuel)%nat →
  run_with_fuel fuel institutions exposures startId shock
    = runSimulation institutions exposures startId shock
  ∧ match runSimulation institutions exposures startId shock with
    | OutOfFuel => False
    | Skipped => startId = ""
    | Completed r bodies =>
        (bodies ≤ 20)%nat
        ∧ rounds r !! 0%nat = Some [startId]
        ∧ length (rounds r) = S (depth r)
        ∧ (length (rounds r) ≤ 21)%nat
    end.
Proof.
  intros Hfuel. unfold runSimulation, run_with_fuel.
  case_bool_decide as Hid; [done|].
  destruct (loop_returns institutions exposures startId shock fuel Hfuel)
    as [-> [[s b] Hrun]].
  split; [done|]. rewrite Hrun. simpl.
  destruct (loop_bounds _ _ _ _ _ _ _ Hrun) as (? & ? & ? & ?).
  split_and!; [done..|lia].
Qed.

Lemma cascade_terminates_within_21_rounds_witness :
  (21 ≤ 40)%nat
  ∧ run_with_fuel 40 three_banks [loan "B" "A" 60; loan "C" "B" 60] "A" (Fin 1)
    = runSimulation three_banks [loan "B" "A" 60; loan "C" "B" 60] "A" (Fin 1)
  ∧ match runSimulation three_banks [loan "B" "A" 60; loan "C" "B" 60] "A" (Fin 1) with
    | OutOfFuel => False
    | Skipped => "A" = ""
    | Completed r bodies =>
        (bodies ≤ 20)%nat
        ∧ rounds r !! 0%nat = Some ["A"]
        ∧ length (rounds r) = S (depth r)
        ∧ (length (rounds r) ≤ 21)%nat
    end.
Proof.
  assert (H : (21 ≤ 40)%nat) by lia.
  exact (conj H (cascade_terminates_within_21_rounds three_banks
                   [loan "B" "A" 60; loan "C" "B" 60] "A" (Fin 1) 40 H)).
Defined.

(** *** Monotone growth of the failed set *)

(** C2: in a completed run the failed set is the concatenation of the
    rounds' failure lists, no id occurs twice in them (so each failed
    institution is in exactly one round's list and the lists are pairwise
    disjoint), every round only extends the failed set, and a link whose
    creditor has already failed changes nothing. *)
Theorem cascade_rounds_partition_failed_set
    (institutions : list Institution) (exposures : list Exposure)
    (startId : string) (shock : number) (r : SimResult) (n : nat) :
  runSimulation institutions exposures startId shock = Completed r n →
  failedNodes r = concat (rounds r)
  ∧ NoDup (concat (rounds r))
  ∧ (∀ i j ri rj, i ≠ j → rounds r !! i = Some ri → rounds r !! j = Some rj →
       ∀ x, x ∈ ri → x ∈ rj → False)
  ∧ (∀ s, l_failed s `prefix_of` failed (round exposures shock s))
  ∧ (∀ w link, source link ∈ failed w → process_link shock w link = w).
Proof.
  unfold runSimulation, run_with_fuel. intros Hrun.
  case_bool_decide; [done|].
  destruct (while_loop _ _ _ _ _) as [[s b]|] eqn:Hloop; [|done].
  injection Hrun as <- <-. simpl.
  destruct (loop_partition _ _ _ _ _ _ _ Hloop) as [Heq Hnd].
  rewrite Heq in Hnd.
  split_and!; [done|done| | |].
  - intros i j ri rj. by apply NoDup_concat_disjoint.
  - apply round_failed_prefix.
  - intros w link Hin. unfold process_link, Set_has.
    by rewrite bool_decide_eq_true_2.
Qed.

Lemma cascade_rounds_partition_failed_set_witness :
  failedNodes {| failedNodes := ["A"; "B"]; rounds := [["A"]; ["B"]];
                 totalLoss := Fin 200; depth := 1 |}
  = concat [["A"]; ["B"]]
  ∧ NoDup (concat [["A"]; ["B"]]).
Proof.
  pose proof (cascade_rounds_partition_failed_set three_banks [loan "B" "A" 60]
                "A" (Fin 1) _ _ scenario_one_creditor) as (H1 & H2 & _).
  exact (conj H1 H2).
Defined.

(** *** Who can fail *)

(** C10: every failed id other than the start id is the id of a record of
    the institutions list; an id that only occurs as an endpoint of an
    exposure never fails. *)
Theorem cascade_failed_are_institutions
    (institutions : list Institution) (exposures : list Exposure)
    (startId : string) (shock : number) (r : SimResult) (n : nat) :
  runSimulation institutions exposures startId shock = Completed r n →
  ∀ x, x ∈ failedNodes r → x ≠ startId →
       ∃ i, i ∈ institutions ∧ institution_id i = x.
Proof.
  unfold runSimulation, run_with_fuel. intros Hrun x Hx Hne.
  case_bool_decide; [done|].
  destruct (while_loop _ _ _ _ _) as [[s b]|] eqn:Hloop; [|done].
  injection Hrun as <- <-. simpl in Hx.
  destruct (loop_members _ _ _ _ _ _ _ Hloop x Hx) as [?|Hin]; [done|].
  apply list_elem_of_fmap in Hin as (i & -> & Hi). eauto.
Qed.

Lemma cascade_failed_are_institutions_witness :
  ∃ i, i ∈ three_banks ∧ institution_id i = "B".
Proof.
  apply (cascade_failed_are_institutions three_banks [loan "B" "A" 60]
           "A" (Fin 1) _ _ scenario_one_creditor "B").
  - simpl. apply list_elem_of_In. simpl. auto.
  - discriminate.
Defined.

(** *** Zero loss-given-default *)

(** An institution whose leverage ratio is negative starts with negative
    equity; the first link that charges it, even with a loss of zero, finds
    its equity at or below zero and records it as failed. *)
Lemma zero_lgd_cascade_spreads :
  runSimulation [bank "A" 100 10; bank "B" 100 (-10)] [loan "B" "A" 60] "A" (Fin 0)
  = Completed {| failedNodes := ["A"; "B"]; rounds := [["A"]; ["B"]];
                 totalLoss := Fin 200; depth := 1 |} 2.
Proof. vm_compute. reflexivity. Qed.

(** C3 (amended): with [lgd_fraction = 0], a non-empty start id and every
    creditor of the start institution afloat (the state entry read for it
    holds an equity that is not at or below zero, also as a double), the
    cascade stops after round 0: depth 0, failed set [{startId}], one round
    recorded.  The other institutions are not looked at. *)
Theorem zero_lgd_cascade_is_noop
    (institutions : list Institution) (exposures : list Exposure) (startId : string) :
  startId ≠ "" →
  creditors_afloat institutions exposures startId →
  runSimulation institutions exposures startId (Fin 0)
  = Completed {| failedNodes := [startId]; rounds := [[startId]];
                 totalLoss := total_loss institutions [startId]; depth := 0 |} 1.
Proof.
  intros Hid Heq. unfold runSimulation, run_with_fuel.
  rewrite bool_decide_eq_false_2 by done.
  destruct (round_zero_shock exposures startId (Fin 0) (initial_loop institutions startId)
              eq_refl eq_refl eq_refl) as [Hfailed Hnext].
  { intros j c Hj (link & Hin & Ht & Hs & Hsrc) Hbefore.
    apply (Heq link j c Hin Ht Hs). apply list_find_Some.
    split_and!; [done|done|]. intros i y Hy Hi. rewrite Hsrc. exact (Hbefore i y Hy Hi). }
  rewrite while_loop_unfold.
  change (loop_cond (initial_loop institutions startId)) with true. cbv iota.
  rewrite Hnext. simpl. by rewrite Hfailed.
Qed.

Lemma zero_lgd_cascade_is_noop_witness :
  "A" ≠ ""
  ∧ runSimulation [bank "A" 100 10; bank "B" 100 10; bank "C" 100 (-10)]
      [loan "B" "A" 60] "A" (Fin 0)
    = Completed {| failedNodes := ["A"]; rounds := [["A"]];
                   totalLoss :=
                     total_loss [bank "A" 100 10; bank "B" 100 10; bank "C" 100 (-10)] ["A"];
                   depth := 0 |} 1.
Proof.
  assert (H1 : "A" ≠ "") by discriminate.
  assert (H2 : creditors_afloat [bank "A" 100 10; bank "B" 100 10; bank "C" 100 (-10)]
                 [loan "B" "A" 60] "A").
  { intros link k creditor ->%list_elem_of_singleton _ _ Hfind.
    injection Hfind as _ <-. apply Qle_bool_imp_le. vm_compute. reflexivity. }
  exact (conj H1 (zero_lgd_cascade_is_noop _ [loan "B" "A" 60] "A" H1 H2)).
Defined.

(** *** A start id outside the institutions list *)

(** The id ["Z"] is no institution, yet the run completes like any other:
    round 0 is [["Z"]] and the creditor of ["Z"] fails in round 1. *)
Lemma unknown_start_runs_the_cascade :
  ("Z" ∉ ids three_banks)
  ∧ runSimulation three_banks [loan "A" "Z" 60] "Z" (Fin 1)
    = Completed {| failedNodes := ["Z"; "A"]; rounds := [["Z"]; ["A"]];
                   totalLoss := Fin 100; depth := 1 |} 2.
Proof.
  split; [|vm_compute; reflexivity].
  apply (bool_decide_eq_false_1 ("Z" ∈ ids three_banks)). vm_compute. reflexivity.
Qed.

(** C9 (amended): [runSimulation] has no check of the start id against the
    institutions list.  An empty start id makes it return at once without
    a result; any other start id that is absent from the list gets an
    ordinary result whose round 0 is [[startId]] and whose failed set
    contains it. *)
Theorem unknown_start_is_not_reported
    (institutions : list Institution) (exposures : list Exposure)
    (startId : string) (shock : number) :
  startId ∉ ids institutions →
  (startId = "" → runSimulation institutions exposures startId shock = Skipped)
  ∧ (startId ≠ "" →
     ∃ r n, runSimulation institutions exposures startId shock = Completed r n
            ∧ rounds r !! 0%nat = Some [startId]
            ∧ startId ∈ failedNodes r).
Proof.
  intros _. unfold runSimulation, run_with_fuel. split; intros Hid.
  - by rewrite bool_decide_eq_true_2.
  - rewrite bool_decide_eq_false_2 by done.
    destruct (loop_returns institutions exposures startId shock 21) as [_ [[s b] Hrun]];
      [lia|].
    rewrite Hrun. eexists _, _. split; [done|]. simpl.
    destruct (loop_bounds _ _ _ _ _ _ _ Hrun) as (_ & H0 & _).
    destruct (loop_partition _ _ _ _ _ _ _ Hrun) as [Heq _].
    split; [done|]. rewrite Heq.
    apply list_elem_of_In, in_concat. exists [startId].
    split; [|by left].
    apply list_elem_of_In. by eapply list_elem_of_lookup_2.
Qed.

Lemma unknown_start_is_not_reported_witness :
  ("Z" ∉ ids three_banks)
  ∧ ("Z" ≠ "" →
     ∃ r n, runSimulation three_banks [loan "A" "Z" 60] "Z" (Fin 1) = Completed r n
            ∧ rounds r !! 0%nat = Some ["Z"]
            ∧ "Z" ∈ failedNodes r).
Proof.
  assert (H : "Z" ∉ ids three_banks).
  { apply (bool_decide_eq_false_1 ("Z" ∈ ids three_banks)). vm_compute. reflexivity. }
  exact (conj H (proj2 (unknown_start_is_not_reported three_banks
                          [loan "A" "Z" 60] "Z" (Fin 1) H))).
Defined.

End CascadeProofs.

(** ** The normalizer *)

Module NormalizerProofs.

Import Normalizer JSFacts Samples.

(** *** The four sub-scores *)

Lemma liquidityScore_nonneg (m : InstitutionMetrics) : nonneg (liquidityScore m).
Proof.
  unfold liquidityScore.
  destruct (m_liquidity_ratio m) as [| | |q]; unfold JS.or; simpl; try lra.
  destruct (negb (Qeq_bool q 0)); simpl; [|lra].
  destruct (Qle_bool 0 (1.2 + - q)) eqn:E; simpl; [|lra].
  apply Qle_bool_iff in E. lra.
Qed.






(** *** The risk score *)

(** A leverage ratio of -20 gives a negative score, and a leverage ratio
    of -Infinity gives the score -Infinity. *)
Lemma negative_leverage_gives_negative_score :
  (risk_score (row "A" (Fin 100) (Fin (-20)) (Fin 1) (Fin 100)) calm_market <? Fin 0)%js
  = true
  ∧ risk_score (row "A" (Fin 100) NInf (Fin 1) (Fin 100)) calm_market = NInf.
Proof. split; vm_compute; reflexivity. Qed.

(** C4 (amended): for every metrics row and market snapshot the risk score
    is never NaN and never above 100.  When the leverage ratio, the CDS
    spread and the volatility index are not negative (missing and
    non-numeric fields included, whatever the liquidity ratio), it is a
    finite number between 0 and 100. *)
Theorem risk_score_bounded (m : InstitutionMetrics) (mk : MarketData) :
  isNaN (risk_score m mk) = false
  ∧ (risk_score m mk <=? Fin 100)%js = true
  ∧ ((m_leverage_ratio m <? Fin 0)%js = false →
     (m_cds_spread m <? Fin 0)%js = false →
     (vix_index mk <? Fin 0)%js = false →
     within 0 100 (risk_score m mk)).
Proof.
  assert (Hle : (risk_score m mk <=? Fin 100)%js = true).
  { unfold risk_score, riskScore_raw.
    destruct (leverageScore m + liquidityScore m + cdsScore m + vixScore mk)%js
      as [| | |q] eqn:E; [done|..]; simpl; try done; try (apply min_cap_leb; done).
    - destruct (Qle_bool 100 q) eqn:E'; simpl; apply Qle_bool_iff; [lra|].
      apply Qle_bool_false in E'. lra. }
  split_and!; [by destruct (risk_score m mk)|done|].
  intros Hlev Hcds Hvix.
  assert (Hraw : within 0 100 (riskScore_raw m mk)).
  { unfold riskScore_raw. apply min_cap_within; [lra|].
    repeat apply add_nonneg.
    - apply (within_nonneg 0 40), capped_within; [lra..|]. apply or_nonneg; [lra|done].
    - apply liquidityScore_nonneg.
    - apply (within_nonneg 0 20), capped_within; [lra..|]. apply or_nonneg; [lra|done].
    - apply (within_nonneg 0 10), capped_within; [lra..|]. apply or_nonneg; [lra|done]. }
  unfold risk_score. by destruct (riskScore_raw m mk).
Qed.

Lemma risk_score_bounded_witness :
  within 0 100 (risk_score (row "A" (Fin 100) (Fin 10) (Fin 0.125) (Fin 100)) calm_market).
Proof.
  pose proof (risk_score_bounded (row "A" (Fin 100) (Fin 10) (Fin 0.125) (Fin 100))
                calm_market) as (_ & _ & H).
  exact (H eq_refl eq_refl eq_refl).
Defined.

(** *** The systemic risk index *)

Lemma min_1_capped (x : number) : x ≠ NaN → capped (JS.min x (Fin 1)).
Proof.
  destruct x as [| | |q]; simpl; try done. by destruct (Qle_bool q 1).
Qed.

Lemma mul_capped (x : number) (w : Q) : 0 < w → capped x → capped (x * Fin w).
Proof.
  intros Hw. destruct x; simpl; try done.
  apply Qgt_alt in Hw. by rewrite Hw.
Qed.

Lemma add_capped (x y : number) : capped x → capped y → capped (x + y).
Proof. by destruct x, y. Qed.

Lemma capped_add_fin (x : number) (j : Q) : capped x → (x + Fin j)%js ≠ NaN.
Proof. by destruct x. Qed.

Lemma div_pos_not_NaN (x : number) (c : Q) : 0 < c → x ≠ NaN → (x / Fin c)%js ≠ NaN.
Proof.
  intros Hc Hx. destruct x as [| | |q]; simpl; try done.
  - by destruct (Qltb c 0).
  - by destruct (Qltb c 0).
  - by rewrite (Qeq_bool_pos c Hc).
Qed.

(** [Math.max(0, Math.min(1, x))] clamps every number except NaN. *)
Lemma clamp_within (x : number) :
  x ≠ NaN → within 0 1 (JS.max (Fin 0) (JS.min (Fin 1) x)).
Proof.
  intros Hx. destruct x as [| | |q]; simpl; try done; try lra.
  destruct (Qle_bool 1 q) eqn:E1; simpl; [lra|].
  apply Qle_bool_false in E1.
  destruct (Qle_bool 0 q) eqn:E0; simpl; [|lra].
  apply Qle_bool_iff in E0. lra.
Qed.

Lemma capped_not_NaN (x : number) : capped x → x ≠ NaN.
Proof. by destruct x. Qed.

Lemma above_not_NaN (x : number) : above x → x ≠ NaN.
Proof. by destruct x. Qed.

Lemma add_above (x y : number) : above x → above y → above (x + y).
Proof. by destruct x, y. Qed.

Lemma defaulted_above (x : number) (d : Q) : x ≠ NInf → above (x || Fin d)%js.
Proof.
  destruct x as [| | |q]; unfold JS.or; simpl; try done.
  by destruct (negb (Qeq_bool q 0)).
Qed.

Lemma defaulted_capped (x : number) (d : Q) : x ≠ PInf → capped (x || Fin d)%js.
Proof.
  destruct x as [| | |q]; unfold JS.or; simpl; try done.
  by destruct (negb (Qeq_bool q 0)).
Qed.

(** A column without infinities of both signs does not sum to NaN. *)
Lemma sum_of_not_NaN (f : InstitutionMetrics → number) (ms : list InstitutionMetrics) :
  one_sided f ms → sum_of f ms ≠ NaN.
Proof.
  unfold sum_of. intros [Hms|Hms].
  - apply above_not_NaN.
    cut (∀ acc, above acc →
           above (foldl (λ acc curr, (acc + (f curr || Fin 0))%js) acc ms));
      [by intros H; apply H|].
    induction Hms as [|m ms Hm _ IH]; intros acc Hacc; cbn [foldl]; cbv beta; [done|].
    by apply IH, add_above, defaulted_above.
  - apply capped_not_NaN.
    cut (∀ acc, capped acc →
           capped (foldl (λ acc curr, (acc + (f curr || Fin 0))%js) acc ms));
      [by intros H; apply H|].
    induction Hms as [|m ms Hm _ IH]; intros acc Hacc; cbn [foldl]; cbv beta; [done|].
    by apply IH, add_capped, defaulted_capped.
Qed.

Lemma of_nat_pos (n : nat) : n ≠ 0%nat → 0 < inject_Z (Z.of_nat n).
Proof. intros Hn. change 0 with (inject_Z 0). rewrite <- Zlt_Qlt. lia. Qed.

(** When no column holds infinities of both signs the weighted sum is
    neither NaN nor [+Infinity]. *)
Lemma baseRiskIndex_capped (ms : list InstitutionMetrics) (mk : MarketData) :
  ms ≠ [] →
  one_sided m_leverage_ratio ms → one_sided m_cds_spread ms →
  capped (baseRiskIndex ms mk).
Proof.
  intros Hne Hlev Hcds. unfold baseRiskIndex, of_nat.
  assert (Hlen : 0 < inject_Z (Z.of_nat (length ms))) by (apply of_nat_pos; by destruct ms).
  repeat apply add_capped; apply mul_capped; try lra; apply min_1_capped;
    repeat (apply div_pos_not_NaN; [lra || done|]).
  - by apply sum_of_not_NaN.
  - by apply sum_of_not_NaN.
  - apply or_not_NaN.
Qed.

Lemma calculateStableRisk_eq (ω : nat → Q) (ms : list InstitutionMetrics)
    (mk : MarketData) (n : nat) :
  (calculateStableRisk ω ms mk n).1
  = if (length ms =? 0)%nat then Fin 0.62
    else JS.max (Fin 0) (JS.min (Fin 1) (baseRiskIndex ms mk + jitter (Fin (ω n)))%js).
Proof.
  unfold calculateStableRisk, stable_risk_try.
  by destruct (length ms =? 0)%nat.
Qed.

(** C6: the index is not always in [0,1].  On two rows whose leverage
    ratios are [+Infinity] and [-Infinity] the sum of the column is NaN,
    the clamp [Math.max(0, Math.min(1, x))] passes NaN through and no
    fallback constant is returned: the index is NaN.  The risk score of a
    row, which can be NaN before its guard in the same way, is guarded by
    [isNaN] and is 0. *)
Theorem opposite_infinities_give_NaN_index :
  run (calculateStableRisk half
         [row "A" (Fin 100) PInf (Fin 1) (Fin 100);
          row "B" (Fin 100) NInf (Fin 1) (Fin 100)] calm_market)
  = NaN
  ∧ riskScore_raw (row "A" (Fin 100) NInf NInf (Fin 100)) calm_market = NaN
  ∧ risk_score (row "A" (Fin 100) NInf NInf (Fin 100)) calm_market = Fin 0.
Proof. split_and!; vm_compute; reflexivity. Qed.

Lemma finite_one_sided (f : InstitutionMetrics → number) (ms : list InstitutionMetrics) :
  Forall (λ m, f m ≠ PInf ∧ f m ≠ NInf) ms → one_sided f ms.
Proof. intros H. left. eapply Forall_impl; [exact H|]. by intros m [_ ?]. Qed.

(** X29: when the leverage ratios and the CDS spreads of the rows are
    finite or missing, the index is a number in [0,1], whatever the draw
    and whatever the market snapshot; on an empty set of rows it is the
    constant 0.62; the jitter of a draw in [0,1) lies within 0.0012 of
    zero. *)
Theorem stable_risk_index_in_unit_interval (ω : nat → Q) (ms : list InstitutionMetrics)
    (mk : MarketData) (n : nat) :
  Forall (λ m, m_leverage_ratio m ≠ PInf ∧ m_leverage_ratio m ≠ NInf) ms →
  Forall (λ m, m_cds_spread m ≠ PInf ∧ m_cds_spread m ≠ NInf) ms →
  within 0 1 (calculateStableRisk ω ms mk n).1
  ∧ (ms = [] → (calculateStableRisk ω ms mk n).1 = Fin 0.62)
  ∧ (0 <= ω n < 1 → within (-0.0012) 0.0012 (jitter (Fin (ω n)))).
Proof.
  intros Hlev%finite_one_sided Hcds%finite_one_sided. split_and!.
  - rewrite calculateStableRisk_eq.
    destruct ms as [|m ms']; [simpl; lra|].
    change (length (m :: ms') =? 0)%nat with false. cbv iota.
    apply clamp_within. simpl. by apply capped_add_fin, baseRiskIndex_capped.
  - intros ->. reflexivity.
  - simpl. lra.
Qed.

Lemma stable_risk_index_in_unit_interval_witness :
  within 0 1
    (calculateStableRisk half
       [row "A" (Fin 100) (Fin 10) (Fin 1) (Fin 100);
        row "B" (Fin 100) (Fin 40) (Fin 1) NaN] calm_market 0%nat).1.
Proof.
  refine (proj1 (stable_risk_index_in_unit_interval half _ calm_market 0%nat _ _));
    repeat first [apply List.Forall_cons | apply List.Forall_nil | split | discriminate].
Defined.

(** *** The connection counters *)

Lemma count_of_aggregate_edge (latest : string) (t : Tables) (e : ExposureNetwork)
    (k : string) :
  count_of (connectionCounts (aggregate_edge latest t e)) k
  = (count_of (connectionCounts t) k
     + (if bool_decide (date e = latest) then touches k e else 0))%nat.
Proof.
  unfold aggregate_edge. case_bool_decide; [|simpl; lia].
  unfold count_of, touches. simpl.
  destruct (decide (creditor_id e = k)) as [Hc|Hc], (decide (debtor_id e = k)) as [Hd|Hd];
    repeat case_bool_decide; try done.
  - rewrite Hc, Hd, !lookup_insert_eq. simpl. lia.
  - rewrite Hc, lookup_insert_eq, lookup_insert_ne by done. simpl. lia.
  - rewrite lookup_insert_ne, Hd, lookup_insert_eq by done. simpl. lia.
  - rewrite !lookup_insert_ne by done. lia.
Qed.

(** The counter of [k] is its number of connections. *)
Lemma count_of_aggregate (latest : string) (network : list ExposureNetwork) (k : string) :
  count_of (connectionCounts (aggregate latest network)) k = connections latest network k.
Proof.
  unfold aggregate, connections, rows_at.
  assert (H : ∀ t, count_of (connectionCounts (foldl (aggregate_edge latest) t network)) k
                   = (count_of (connectionCounts t) k
                      + sum_list_with (touches k) (filter (λ e, date e = latest) network))%nat).
  { induction network as [|e network IH]; intros t; simpl; [lia|].
    rewrite IH, count_of_aggregate_edge, filter_cons.
    case_bool_decide; case_decide; try done; simpl; lia. }
  rewrite H. unfold count_of. cbn [connectionCounts]. by rewrite lookup_empty.
Qed.

Lemma dom_aggregate_edge (latest : string) (t : Tables) (e : ExposureNetwork) :
  dom (connectionCounts (aggregate_edge latest t e))
  = dom (connectionCounts t)
    ∪ (if bool_decide (date e = latest)
       then {[debtor_id e; creditor_id e]} else ∅).
Proof.
  unfold aggregate_edge. case_bool_decide; simpl.
  - rewrite !dom_insert_L. set_solver.
  - set_solver.
Qed.

(** The keys of [connectionCounts] are the connected ids. *)
Lemma dom_aggregate (latest : string) (network : list ExposureNetwork) :
  dom (connectionCounts (aggregate latest network)) = connected latest network.
Proof.
  unfold aggregate, connected, rows_at.
  assert (H : ∀ t, dom (connectionCounts (foldl (aggregate_edge latest) t network))
                   = dom (connectionCounts t)
                     ∪ list_to_set (filter (λ e, date e = latest) network
                                      ≫= λ e, [debtor_id e; creditor_id e])).
  { induction network as [|e network IH]; intros t; simpl; [set_solver|].
    rewrite IH, dom_aggregate_edge, filter_cons.
    case_bool_decide; case_decide; try done; csimpl; set_solver. }
  rewrite H. simpl. rewrite dom_empty_L. set_solver.
Qed.

Lemma size_aggregate (latest : string) (network : list ExposureNetwork) :
  size (connectionCounts (aggregate latest network)) = size (connected latest network).
Proof. by rewrite <- dom_aggregate, size_dom. Qed.

Lemma length_counterparties (k : string) (rows : list ExposureNetwork) :
  length (counterparties k rows) = sum_list_with (touches k) rows.
Proof.
  unfold counterparties, touches.
  induction rows as [|e rows IH]; [done|]. csimpl.
  rewrite !length_app, IH. by repeat case_bool_decide.
Qed.

Lemma elem_of_counterparties (k x : string) (rows : list ExposureNetwork) :
  x ∈ counterparties k rows
  ↔ ∃ e, e ∈ rows ∧ ((debtor_id e = k ∧ creditor_id e = x)
                     ∨ (creditor_id e = k ∧ debtor_id e = x)).
Proof.
  unfold counterparties. rewrite list_elem_of_bind. split.
  - intros (e & Hx & He). exists e. split; [done|].
    apply elem_of_app in Hx as [Hx|Hx]; case_bool_decide;
      try (by apply elem_of_nil in Hx);
      apply list_elem_of_singleton in Hx; auto.
  - intros (e & He & [[Hd Hc]|[Hc Hd]]); exists e; (split; [|done]);
      apply elem_of_app; [left|right];
      rewrite bool_decide_eq_true_2 by done; by apply list_elem_of_singleton.
Qed.

(** In a simple network the counterparties of [k] are pairwise distinct. *)
Lemma NoDup_counterparties (k : string) (rows : list ExposureNetwork) :
  simple rows → NoDup (counterparties k rows).
Proof.
  induction rows as [|e rows IH]; [constructor|].
  intros (Hloop & Hpairs & Hrest).
  change (counterparties k (e :: rows))
    with (((if bool_decide (debtor_id e = k) then [creditor_id e] else [])
           ++ (if bool_decide (creditor_id e = k) then [debtor_id e] else []))
          ++ counterparties k rows).
  apply NoDup_app. split_and!; [| |by apply IH].
  - repeat case_bool_decide; simpl;
      [congruence | apply NoDup_singleton | apply NoDup_singleton | constructor].
  - intros x Hx (e' & He' & Hx')%elem_of_counterparties.
    rewrite Forall_forall in Hpairs. apply (Hpairs e' He'). unfold same_pair.
    apply elem_of_app in Hx as [Hx|Hx]; case_bool_decide;
      try (by apply elem_of_nil in Hx);
      apply list_elem_of_singleton in Hx; naive_solver.
Qed.

Lemma counterparties_connected (latest : string) (network : list ExposureNetwork)
    (k x : string) :
  x ∈ counterparties k (rows_at latest network) → x ∈ connected latest network.
Proof.
  intros (e & He & Hx)%elem_of_counterparties.
  unfold connected. apply elem_of_list_to_set, list_elem_of_bind.
  exists e. split; [|done]. set_solver.
Qed.

(** In a simple network nobody has more connections than there are
    connected ids. *)
Lemma connections_le_connected (latest : string) (network : list ExposureNetwork)
    (k : string) :
  simple (rows_at latest network) →
  (connections latest network k ≤ size (connected latest network))%nat.
Proof.
  intros Hs. unfold connections. rewrite <- length_counterparties.
  rewrite <- (size_list_to_set (C:=gset string)) by by apply NoDup_counterparties.
  apply subseteq_size. intros x Hx%elem_of_list_to_set.
  by eapply counterparties_connected.
Qed.

(** *** What [processCsvData] returns *)

(** Neither the nodes nor the links depend on the random draws. *)
Lemma processCsvData_nodes (ω : nat → Q) (metrics : list InstitutionMetrics)
    (network : list ExposureNetwork) (market : list MarketData)
    (labels : list CrisisLabel) (n : nat) :
  nodes (processCsvData ω metrics network market labels n).1
  = imap (node_of (aggregate (latestDate metrics) network)
            (marketLatest market (latestDate metrics)))
      (filter (λ m, m_date m = latestDate metrics) metrics).
Proof.
  unfold processCsvData, mbind, rand_bind.
  destruct (calculateStableRisk _ _ _ n) as [v n'].
  by destruct (mapM _ labels n') as [ps n''].
Qed.

Lemma processCsvData_links (ω : nat → Q) (metrics : list InstitutionMetrics)
    (network : list ExposureNetwork) (market : list MarketData)
    (labels : list CrisisLabel) (n : nat) :
  links (processCsvData ω metrics network market labels n).1
  = link_of <$> rows_at (latestDate metrics) network.
Proof.
  unfold processCsvData, mbind, rand_bind.
  destruct (calculateStableRisk _ _ _ n) as [v n'].
  by destruct (mapM _ labels n') as [ps n''].
Qed.

(** *** Centrality *)

Lemma of_nat_le (a b : nat) : (a ≤ b)%nat → inject_Z (Z.of_nat a) <= inject_Z (Z.of_nat b).
Proof. intros H. rewrite <- Zle_Qle. lia. Qed.

(** The quotient [c / Math.max(1, N)] of two counts. *)
Lemma count_ratio (c N : nat) :
  ∃ q, (of_nat c / JS.max (Fin 1) (of_nat N))%js = Fin q
       ∧ 0 <= q
       ∧ (c = 0%nat → q == 0)
       ∧ ((c ≤ N)%nat → q <= 1).
Proof.
  pose proof (of_nat_le 0 c ltac:(lia)) as Hc. change (inject_Z (Z.of_nat 0)) with 0 in Hc.
  unfold of_nat. simpl.
  destruct (Qle_bool 1 (inject_Z (Z.of_nat N))) eqn:E; simpl.
  - apply Qle_bool_iff in E.
    rewrite Qeq_bool_pos by lra.
    eexists. split; [done|]. split_and!.
    + apply Qle_shift_div_l; lra.
    + intros ->. change (inject_Z (Z.of_nat 0)) with 0. by field_simplify_eq; [|lra].
    + intros Hle%of_nat_le. apply Qle_shift_div_r; lra.
  - apply Qle_bool_false in E.
    eexists. split; [done|]. split_and!.
    + apply Qle_shift_div_l; lra.
    + intros ->. reflexivity.
    + intros Hle%of_nat_le. apply Qle_shift_div_r; lra.
Qed.

(** With exposures in both directions between A and B and between A and C,
    A has four connections among three connected ids. *)
Lemma centrality_can_exceed_one :
  (λ i, (institution_id i, (Fin 1 <? centrality i)%js))
    <$> nodes (run (processCsvData half
                      [row "A" (Fin 100) (Fin 10) (Fin 1) (Fin 100);
                       row "B" (Fin 100) (Fin 10) (Fin 1) (Fin 100);
                       row "C" (Fin 100) (Fin 10) (Fin 1) (Fin 100)]
                      [edge "A" "B" 5; edge "B" "A" 5; edge "A" "C" 1; edge "C" "A" 1]
                      [calm_market] []))
  = [("A", true); ("B", false); ("C", false)].
Proof. vm_compute. reflexivity. Qed.

(** C7 (amended): for a node whose id is no name that every object
    inherits, and rows of the reference date without the endpoint
    [__proto__], the centrality is the number of connections of the node
    divided by the number of connected ids (by 1 when there is none).  It
    is a finite non-negative number and it is 0 for an institution without
    connections.  It lies in [0,1] whenever the connections of the
    institution do not outnumber the connected ids, in particular when the
    reference-date rows contain no self-loop and no two rows between the
    same pair of institutions. *)
Theorem centrality_is_normalised_degree (ω : nat → Q)
    (metrics : list InstitutionMetrics) (network : list ExposureNetwork)
    (market : list MarketData) (labels : list CrisisLabel) (n : nat)
    (i : Institution) :
  plain (institution_id i) →
  keys_stored (latestDate metrics) network →
  i ∈ nodes (processCsvData ω metrics network market labels n).1 →
  centrality i
  = (of_nat (connections (latestDate metrics) network (institution_id i))
     / JS.max (Fin 1) (of_nat (size (connected (latestDate metrics) network))))%js
  ∧ (∃ q, centrality i = Fin q ∧ 0 <= q)
  ∧ (connections (latestDate metrics) network (institution_id i) = 0%nat →
     JS.eqv (centrality i) (Fin 0))
  ∧ ((connections (latestDate metrics) network (institution_id i)
      ≤ size (connected (latestDate metrics) network))%nat →
     within 0 1 (centrality i))
  ∧ (simple (rows_at (latestDate metrics) network) → within 0 1 (centrality i)).
Proof.
  intros _ _. rewrite processCsvData_nodes.
  intros (idx & m & -> & _)%elem_of_lookup_imap_1.
  cbn [centrality institution_id node_of].
  unfold centrality_of. rewrite count_of_aggregate, size_aggregate.
  destruct (count_ratio (connections (latestDate metrics) network (m_institution_id m))
              (size (connected (latestDate metrics) network)))
    as (q & -> & Hq0 & Hzero & Hle).
  split_and!; [done|eauto|exact Hzero| |].
  - intros H. simpl. auto.
  - intros H. simpl. split; [done|]. by apply Hle, connections_le_connected.
Qed.

Lemma centrality_is_normalised_degree_witness :
  within 0 1
    (centrality
       (node_of (aggregate "2026-02-14" [edge "B" "A" 5; edge "C" "A" 1])
          calm_market 0%nat (row "A" (Fin 100) (Fin 10) (Fin 1) (Fin 100)))).
Proof.
  assert (Hin : node_of (aggregate "2026-02-14" [edge "B" "A" 5; edge "C" "A" 1])
                  calm_market 0%nat (row "A" (Fin 100) (Fin 10) (Fin 1) (Fin 100))
                ∈ nodes (processCsvData half
                           [row "A" (Fin 100) (Fin 10) (Fin 1) (Fin 100)]
                           [edge "B" "A" 5; edge "C" "A" 1] [calm_market] [] 0%nat).1).
  { rewrite processCsvData_nodes. by apply (elem_of_lookup_imap_2 _ _ _ 0%nat). }
  assert (Hplain : plain "A") by (apply (bool_decide_unpack _); vm_compute; exact I).
  assert (Hkeys : keys_stored "2026-02-14" [edge "B" "A" 5; edge "C" "A" 1]).
  { repeat first [apply List.Forall_cons | apply List.Forall_nil | split | discriminate]. }
  pose proof (centrality_is_normalised_degree half
                [row "A" (Fin 100) (Fin 10) (Fin 1) (Fin 100)]
                [edge "B" "A" 5; edge "C" "A" 1] [calm_market] [] 0%nat
                (node_of (aggregate "2026-02-14" [edge "B" "A" 5; edge "C" "A" 1])
                   calm_market 0%nat (row "A" (Fin 100) (Fin 10) (Fin 1) (Fin 100)))
                Hplain Hkeys Hin) as (_ & _ & _ & H & _).
  apply H. vm_compute. lia.
Defined.

(** *** Self-loops *)

(** A row whose creditor and debtor are both A is turned into an edge from
    A to A, and A's counter and volume count it twice. *)
Lemma self_loop_row_is_kept :
  links (run (processCsvData half
                [row "A" (Fin 100) (Fin 10) (Fin 1) (Fin 100)]
                [edge "A" "A" 7] [calm_market] []))
  = [{| source := "A"; target := "A"; amount := Fin 7; collateral := Fin 0 |}]
  ∧ connectionCounts (aggregate "2026-02-14" [edge "A" "A" 7]) !! "A" = Some 2%nat
  ∧ nodeVolumes (aggregate "2026-02-14" [edge "A" "A" 7]) !! "A" = Some (Fin 14).
Proof. split_and!; vm_compute; reflexivity. Qed.

(** C8 (amended): the normalizer does not drop self-loops.  Its edges are
    the rows of the reference date, one edge per row in the same order, so a
    row with [creditor_id = debtor_id] yields an edge with
    [source = target]; such a row, when its id is no name that every object
    inherits, adds 2 to the connection counter of its institution and adds
    its amount to the volume twice. *)
Theorem self_loops_are_kept (ω : nat → Q)
    (metrics : list InstitutionMetrics) (network : list ExposureNetwork)
    (market : list MarketData) (labels : list CrisisLabel) (n : nat) :
  links (processCsvData ω metrics network market labels n).1
  = link_of <$> rows_at (latestDate metrics) network
  ∧ (∀ e, e ∈ network → date e = latestDate metrics → creditor_id e = debtor_id e →
       link_of e ∈ links (processCsvData ω metrics network market labels n).1
       ∧ source (link_of e) = target (link_of e))
  ∧ (∀ t e, date e = latestDate metrics → creditor_id e = debtor_id e →
       plain (creditor_id e) →
       count_of (connectionCounts (aggregate_edge (latestDate metrics) t e)) (creditor_id e)
       = (count_of (connectionCounts t) (creditor_id e) + 2)%nat
       ∧ nodeVolumes (aggregate_edge (latestDate metrics) t e) !! creditor_id e
         = Some (((volume_of (nodeVolumes t) (creditor_id e)
                   + (exposure_amount e || Fin 0) || Fin 0)
                  + (exposure_amount e || Fin 0))%js)).
Proof.
  rewrite processCsvData_links. split_and!; [done| |].
  - intros e He Hdate Hloop. split; [|done].
    apply list_elem_of_fmap_2. by apply list_elem_of_filter.
  - intros t e Hdate Hloop _. split.
    + rewrite count_of_aggregate_edge, bool_decide_eq_true_2 by done.
      unfold touches. by rewrite !bool_decide_eq_true_2 by done.
    + unfold aggregate_edge. rewrite bool_decide_eq_true_2 by done. simpl.
      rewrite lookup_insert_eq. unfold volume_of at 1.
      by rewrite <- Hloop, lookup_insert_eq.
Qed.

End NormalizerProofs.

(** ** More on the cascade *)

Module CascadeExtra.

Import Cascade Panels Notions JSFacts CascadeProofs Samples.

(** Whoever fails in a round is the creditor of a link whose debtor failed
    in the round before. *)
Lemma round_failures_are_creditors exposures shock (s : Loop) (x : string) :
  x ∈ nextFailures (round exposures shock s) →
  ∃ link, link ∈ exposures ∧ source link = x ∧ target link ∈ l_currentFailed s.
Proof.
  revert x.
  apply (round_preserves_debtor
           (λ w, ∀ x, x ∈ nextFailures w →
                      ∃ link, link ∈ exposures ∧ source link = x
                              ∧ target link ∈ l_currentFailed s)).
  - intros w link Hin Ht Hw x.
    destruct (process_link_effect shock w link); simpl; [by apply Hw..|].
    intros [Hx | ->%list_elem_of_singleton]%elem_of_app; [by apply Hw|].
    by exists link.
  - simpl. intros x Hx. by apply elem_of_nil in Hx.
Qed.

Lemma loop_chained institutions exposures startId shock (fuel : nat) (s : Loop) (b : nat) :
  while_loop exposures shock fuel (initial_loop institutions startId) 0 = Some (s, b) →
  chained exposures (l_rounds s) ∧ Forall (λ l, l ≠ []) (l_rounds s).
Proof.
  apply (while_loop_rule
           (λ s _, length (l_rounds s) = S (l_depth s)
                   ∧ l_rounds s !! l_depth s = Some (l_currentFailed s)
                   ∧ chained exposures (l_rounds s)
                   ∧ Forall (λ l, l ≠ []) (l_rounds s))
           (λ s _, chained exposures (l_rounds s) ∧ Forall (λ l, l ≠ []) (l_rounds s))
           exposures shock).
  - by intros s0 _ (_ & _ & ? & ?) _.
  - by intros s0 _ (_ & _ & ? & ?) _ _.
  - intros s0 _ (Hlen & Hlast & Hchain & Hne) _ Hnf. simpl. split_and!.
    + rewrite length_app. simpl. lia.
    + rewrite lookup_app_r by lia. by rewrite Hlen, Nat.sub_diag.
    + intros k prev next x Hprev Hnext Hx.
      destruct (decide (S k < length (l_rounds s0))%nat) as [Hk|Hk].
      * rewrite lookup_app_l in Hprev by lia. rewrite lookup_app_l in Hnext by lia.
        by eapply Hchain.
      * apply lookup_app_Some in Hnext as [Hnext | [_ Hnext]];
          [apply lookup_lt_Some in Hnext; lia|].
        apply list_lookup_singleton_Some in Hnext as [Hidx <-].
        assert (k = l_depth s0) as -> by lia.
        rewrite lookup_app_l in Hprev by lia.
        rewrite Hlast in Hprev. injection Hprev as <-.
        by apply (round_failures_are_creditors exposures shock s0).
    + apply Forall_app. split; [done|]. by apply Forall_singleton.
  - simpl. split_and!; [done..| |].
    + intros [|k] prev next x Hprev Hnext; simpl in *; done.
    + by apply Forall_singleton.
Qed.

(** X1: when no exposure has the start institution as its debtor, the
    cascade stops after round 0 whatever the shock: depth 0, failed set
    [{startId}], one round recorded, one loop body executed. *)
Theorem no_creditor_cascade_stops
    (institutions : list Institution) (exposures : list Exposure)
    (startId : string) (shock : number) :
  startId ≠ "" →
  Forall (λ e, target e ≠ startId) exposures →
  runSimulation institutions exposures startId shock
  = Completed {| failedNodes := [startId]; rounds := [[startId]];
                 totalLoss := total_loss institutions [startId]; depth := 0 |} 1.
Proof.
  intros Hid Hnone. unfold runSimulation, run_with_fuel.
  rewrite bool_decide_eq_false_2 by done.
  assert (Hround : round exposures shock (initial_loop institutions startId)
                   = {| failed := [startId]; state := initial_state institutions;
                        nextFailures := [] |}).
  { unfold round, process_failed. simpl.
    assert (filter (λ e, target e = startId) exposures = []) as ->; [|done].
    induction Hnone as [|e es He _ IH]; [done|].
    by rewrite filter_cons_False. }
  rewrite while_loop_unfold.
  change (loop_cond (initial_loop institutions startId)) with true. cbv iota.
  by rewrite Hround.
Qed.

Lemma no_creditor_cascade_stops_witness :
  runSimulation three_banks [loan "C" "B" 60] "A" (Fin 1)
  = Completed {| failedNodes := ["A"]; rounds := [["A"]];
                 totalLoss := total_loss three_banks ["A"]; depth := 0 |} 1.
Proof.
  assert (H1 : "A" ≠ "") by discriminate.
  assert (H2 : Forall (λ e, target e ≠ "A") [loan "C" "B" 60]).
  { repeat first [apply List.Forall_cons | apply List.Forall_nil | discriminate]. }
  exact (no_creditor_cascade_stops three_banks [loan "C" "B" 60] "A" (Fin 1) H1 H2).
Defined.

(** X2: contagion travels along exposure edges only, from debtor to
    creditor: in a completed run every member of round k+1 is the source of
    an exposure whose target is a member of round k; and no recorded round
    is empty. *)
Theorem contagion_follows_exposures
    (institutions : list Institution) (exposures : list Exposure)
    (startId : string) (shock : number) (r : SimResult) (n : nat) :
  runSimulation institutions exposures startId shock = Completed r n →
  (∀ k prev next x,
     rounds r !! k = Some prev → rounds r !! S k = Some next → x ∈ next →
     ∃ link, link ∈ exposures ∧ source link = x ∧ target link ∈ prev)
  ∧ Forall (λ l, l ≠ []) (rounds r).
Proof.
  unfold runSimulation, run_with_fuel. intros Hrun.
  case_bool_decide; [done|].
  destruct (while_loop _ _ _ _ _) as [[s b]|] eqn:Hloop; [|done].
  injection Hrun as <- <-. simpl.
  exact (loop_chained _ _ _ _ _ _ _ Hloop).
Qed.

Lemma contagion_follows_exposures_witness :
  Forall (λ l : list string, l ≠ []) [["A"]; ["B"]].
Proof.
  exact (proj2 (contagion_follows_exposures three_banks [loan "B" "A" 60]
                  "A" (Fin 1) _ _ scenario_one_creditor)).
Defined.

(** X3: the failed set never outgrows the institutions list: it has at
    most one member more than there are institutions, and when the start id
    is the id of an institution every failed id is one and the failed set
    has at most as many members as the list. *)
Theorem failed_count_bounded
    (institutions : list Institution) (exposures : list Exposure)
    (startId : string) (shock : number) (r : SimResult) (n : nat) :
  runSimulation institutions exposures startId shock = Completed r n →
  (length (failedNodes r) ≤ S (length institutions))%nat
  ∧ (startId ∈ ids institutions →
     (∀ x, x ∈ failedNodes r → x ∈ ids institutions)
     ∧ (length (failedNodes r) ≤ length institutions)%nat).
Proof.
  unfold runSimulation, run_with_fuel. intros Hrun.
  case_bool_decide; [done|].
  destruct (while_loop _ _ _ _ _) as [[s b]|] eqn:Hloop; [|done].
  injection Hrun as <- <-. simpl.
  destruct (loop_partition _ _ _ _ _ _ _ Hloop) as [_ Hnd].
  pose proof (loop_members _ _ _ _ _ _ _ Hloop) as Hmem.
  split.
  - assert (H1 : (length (l_failed s) ≤ length (startId :: ids institutions))%nat).
    { apply submseteq_length, NoDup_submseteq; [done|].
      intros x [->|Hx]%Hmem; [by left | by right]. }
    simpl in H1. unfold ids in H1. by rewrite length_fmap in H1.
  - intros Hstart.
    assert (Hall : ∀ x, x ∈ l_failed s → x ∈ ids institutions).
    { intros x [->|Hx]%Hmem; done. }
    split; [done|].
    rewrite <- (length_fmap institution_id institutions).
    by apply submseteq_length, NoDup_submseteq.
Qed.

Lemma failed_count_bounded_witness :
  (length ["A"; "B"] ≤ S (length three_banks))%nat.
Proof.
  exact (proj1 (failed_count_bounded three_banks [loan "B" "A" 60]
                  "A" (Fin 1) _ _ scenario_one_creditor)).
Defined.

(** *** The reported loss *)

Lemma add_eqv (a a' t : number) : eqv a a' → eqv (a + t) (a' + t).
Proof. destruct a, a', t; simpl; try done. intros H. lra. Qed.

Lemma add_zero_eqv (a a' : number) : eqv a a' → eqv (a + Fin 0) a'.
Proof. destruct a, a'; simpl; try done. intros H. lra. Qed.



(** X5: the two components agree on the loss figure: for every
    institutions list and failed set, [totalAssetsAtRisk] of the simulation
    panel has the value of the simulator's total loss. *)
Theorem panel_agrees_with_total_loss
    (institutions : list Institution) (failedNodes : list string) :
  eqv (total_loss institutions failedNodes)
      (totalAssetsAtRisk institutions failedNodes)
  ∧ (failedNodes = [] → totalAssetsAtRisk institutions failedNodes = Fin 0).
Proof.
  split; [|by intros ->].
  unfold total_loss, totalAssetsAtRisk.
  cut (∀ a b, eqv a b →
         eqv (foldl (λ sum fid,
                       let inst := list_find (λ i, institution_id i = fid) institutions in
                       let ta := match inst with
                                 | Some (_, i) => total_assets i
                                 | None => NaN
                                 end in
                       (sum + (ta || Fin 0))%js) a failedNodes)
             (foldl (λ total fid,
                       match list_find (λ i, institution_id i = fid) institutions with
                       | Some (_, inst) => (total + (total_assets inst || Fin 0))%js
                       | None => total
                       end) b failedNodes)).
  { intros H. apply H. simpl. lra. }
  induction failedNodes as [|fid l IH]; intros a b Hab; [done|].
  cbn [foldl]. apply IH. cbv zeta.
  destruct (list_find _ institutions) as [[k i]|].
  - by apply add_eqv.
  - by apply add_zero_eqv.
Qed.

End CascadeExtra.

(** ** More on the normalizer *)

Module NormalizerExtra.

Import Normalizer Measures JSFacts NormalizerProofs Samples.

(** *** The nodes *)

Lemma last_filter {A} (P : A → Prop) `{∀ x, Decision (P x)} (l : list A) (x : A) :
  last l = Some x → P x → last (filter P l) = Some x.
Proof.
  intros [l' ->]%last_Some HP.
  rewrite filter_app, filter_cons_True by done. apply last_snoc.
Qed.

(** X6: there is one node for each metrics row of the reference date, in
    the order of the rows (rows that repeat an id give nodes that repeat
    it); the institution of the last metrics row is the last node, so a
    non-empty metrics table never gives an empty graph; every node is typed
    G-SIB or Regional and its sector follows its position modulo 3. *)
Theorem nodes_follow_reference_rows (ω : nat → Q)
    (metrics : list InstitutionMetrics) (network : list ExposureNetwork)
    (market : list MarketData) (labels : list CrisisLabel) (n : nat) :
  institution_id <$> nodes (processCsvData ω metrics network market labels n).1
  = m_institution_id <$> filter (λ m, m_date m = latestDate metrics) metrics
  ∧ last (institution_id <$> nodes (processCsvData ω metrics network market labels n).1)
    = m_institution_id <$> last metrics
  ∧ (∀ idx i,
       nodes (processCsvData ω metrics network market labels n).1 !! idx = Some i →
       sector i = sector_of idx ∧ (type i = G_SIB ∨ type i = Regional)).
Proof.
  rewrite processCsvData_nodes.
  assert (Hids : institution_id
                   <$> imap (node_of (aggregate (latestDate metrics) network)
                               (marketLatest market (latestDate metrics)))
                         (filter (λ m, m_date m = latestDate metrics) metrics)
                 = m_institution_id
                   <$> filter (λ m, m_date m = latestDate metrics) metrics).
  { rewrite fmap_imap. apply imap_const. }
  split_and!; [done| |].
  - rewrite Hids, !fmap_last.
    destruct (last metrics) as [m|] eqn:Hlast.
    + erewrite last_filter; [done..|].
      unfold latestDate. by rewrite Hlast.
    + apply last_None in Hlast as ->. done.
  - intros idx i Hi. rewrite list_lookup_imap in Hi.
    destruct (filter _ metrics !! idx) as [m|]; [|done].
    injection Hi as <-. cbn [type sector node_of]. split; [done|].
    destruct (gtb _ _); auto.
Qed.

(** *** The market snapshot *)

(** X7: the market snapshot is the first market row of the reference date
    when there is one, else the last market row, else the default snapshot
    with volatility index 25; unless the market table is empty it is always
    a row of the table. *)
Theorem marketLatest_selection (market : list MarketData) (latest : string) :
  (market = [] → marketLatest market latest = default_market)
  ∧ (market ≠ [] → marketLatest market latest ∈ market)
  ∧ (∀ k m, market !! k = Some m → k_date m = latest →
       (∀ j m', market !! j = Some m' → (j < k)%nat → k_date m' ≠ latest) →
       marketLatest market latest = m)
  ∧ (∀ m, m ∈ market → k_date m = latest →
       k_date (marketLatest market latest) = latest)
  ∧ (Forall (λ m, k_date m ≠ latest) market →
     marketLatest market latest = default default_market (last market)).
Proof.
  unfold marketLatest. split_and!.
  - by intros ->.
  - intros Hne. destruct (list_find _ market) as [[k m]|] eqn:Hfind.
    + apply list_find_Some in Hfind as (Hk & _ & _). by eapply list_elem_of_lookup_2.
    + destruct (last market) as [m|] eqn:Hlast.
      * by eapply last_Some_elem_of.
      * by apply last_None in Hlast.
  - intros k m Hk Hdate Hfirst.
    assert (list_find (λ m, k_date m = latest) market = Some (k, m)) as ->; [|done].
    apply list_find_Some. split_and!; [done..|].
    intros j m' Hj Hjk. exact (Hfirst j m' Hj Hjk).
  - intros m Hm Hdate. destruct (list_find _ market) as [[k m']|] eqn:Hfind.
    + by apply list_find_Some in Hfind as (_ & ? & _).
    + apply list_find_None in Hfind. rewrite Forall_forall in Hfind.
      by destruct (Hfind m Hm).
  - intros Hnone.
    assert (list_find (λ m, k_date m = latest) market = None) as ->
      by by apply list_find_None.
    by destruct (last market).
Qed.

(** *** The volumes *)

Lemma holds_eq (x : number) (p q : Q) : holds x p → p == q → holds x q.
Proof. intros (q' & -> & H) Hpq. exists q'. split; [done|]. by rewrite H. Qed.

Lemma holds_or (x : number) (q : Q) : holds x q → holds (x || Fin 0)%js q.
Proof.
  intros (q' & -> & H). unfold JS.or. simpl.
  destruct (Qeq_bool q' 0) eqn:E; simpl.
  - exists 0. split; [done|]. apply Qeq_bool_iff in E. by rewrite <- H, E.
  - by exists q'.
Qed.

Lemma holds_add (x y : number) (p q : Q) :
  holds x p → holds y q → holds (x + y)%js (p + q).
Proof.
  intros (p' & -> & Hp) (q' & -> & Hq). exists (p' + q'). split; [done|].
  by rewrite Hp, Hq.
Qed.

Lemma amount_holds (x : number) :
  x ≠ PInf → x ≠ NInf → holds (x || Fin 0)%js (value_of (x || Fin 0)%js).
Proof.
  intros HP HN. destruct x as [| | |q]; unfold JS.or; simpl; try done.
  - by exists 0.
  - destruct (negb (Qeq_bool q 0)); simpl; by eexists.
Qed.

Lemma volume_of_insert (vol : gmap string number) (d k : string) (v : number) :
  volume_of (<[d := v]> vol) k
  = if bool_decide (d = k) then (v || Fin 0)%js else volume_of vol k.
Proof.
  unfold volume_of. case_bool_decide as Hdk.
  - by rewrite Hdk, lookup_insert_eq.
  - by rewrite lookup_insert_ne.
Qed.

Lemma insert_holds (vol : gmap string number) (g : string → Q) (d : string)
    (amt : number) (a : Q) :
  (∀ k, holds (volume_of vol k) (g k)) → holds amt a →
  ∀ k, holds (volume_of (<[d := (volume_of vol d + amt)%js]> vol) k)
             (g k + (if bool_decide (d = k) then a else 0)).
Proof.
  intros Hvol Hamt k. rewrite volume_of_insert. case_bool_decide as Hdk.
  - subst k. by apply holds_or, holds_add.
  - eapply holds_eq; [apply Hvol|]. ring.
Qed.

Lemma aggregate_edge_holds (latest : string) (t : Tables) (e : ExposureNetwork)
    (g : string → Q) :
  (date e = latest → exposure_amount e ≠ PInf ∧ exposure_amount e ≠ NInf) →
  (∀ k, holds (volume_of (nodeVolumes t) k) (g k)) →
  ∀ k, holds (volume_of (nodeVolumes (aggregate_edge latest t e)) k)
             (g k + (if bool_decide (date e = latest)
                     then inject_Z (Z.of_nat (touches k e))
                          * value_of (exposure_amount e || Fin 0)%js
                     else 0)).
Proof.
  intros Hfin Hvol k. unfold aggregate_edge. case_bool_decide as Hdate.
  - destruct (Hfin Hdate) as [HP HN]. cbn [nodeVolumes].
    eapply holds_eq.
    { apply insert_holds; [|by apply amount_holds].
      apply insert_holds; [done | by apply amount_holds]. }
    unfold touches. repeat case_bool_decide; simpl; ring.
  - eapply holds_eq; [apply Hvol|]. ring.
Qed.

Lemma aggregate_holds (latest : string) (network : list ExposureNetwork) :
  Forall (λ e, exposure_amount e ≠ PInf ∧ exposure_amount e ≠ NInf)
    (rows_at latest network) →
  ∀ k, holds (volume_of (nodeVolumes (aggregate latest network)) k)
             (gross_volume latest network k).
Proof.
  intros Hfin. unfold aggregate.
  cut (∀ t g, (∀ k, holds (volume_of (nodeVolumes t) k) (g k)) →
              ∀ k, holds (volume_of (nodeVolumes (foldl (aggregate_edge latest) t network)) k)
                         (g k + gross_volume latest network k)).
  { intros H k. eapply holds_eq; [apply (H _ (λ _, 0))|ring].
    intros k'. unfold volume_of. cbn [nodeVolumes]. rewrite lookup_empty.
    by exists 0. }
  unfold gross_volume, rows_at in *.
  induction network as [|e network IH]; intros t g Hg k; cbn [foldl].
  - eapply holds_eq; [apply Hg|]. simpl. ring.
  - rewrite filter_cons in Hfin. rewrite filter_cons.
    eapply holds_eq.
    { apply IH.
      - destruct (decide (date e = latest)); [|done]. by apply Forall_cons in Hfin as [_ ?].
      - apply aggregate_edge_holds; [|done].
        intros Hdate. destruct (decide (date e = latest)); [|done].
        by apply Forall_cons in Hfin as [? _]. }
    case_bool_decide; case_decide; try done; simpl; ring.
Qed.

Lemma whole_finite (x : number) : whole x → x ≠ PInf ∧ x ≠ NInf.
Proof. by destruct x. Qed.

(** X8: for a node whose id is no name that every object inherits, when
    the exposure amounts of the reference date are non-negative whole
    numbers (or missing) and the gross volume of the node does not exceed
    2^53, the [pagerank] of the node is its gross exposure volume: the sum
    of the amounts (missing amounts counting 0) of the reference-date rows
    in which the institution is the creditor or the debtor, a row in which
    it is both counting twice. *)
Theorem pagerank_is_gross_volume (ω : nat → Q)
    (metrics : list InstitutionMetrics) (network : list ExposureNetwork)
    (market : list MarketData) (labels : list CrisisLabel) (n : nat)
    (i : Institution) :
  plain (institution_id i) →
  Forall (λ e, whole (exposure_amount e)) (rows_at (latestDate metrics) network) →
  gross_volume (latestDate metrics) network (institution_id i) <= max_exact →
  i ∈ nodes (processCsvData ω metrics network market labels n).1 →
  holds (pagerank i) (gross_volume (latestDate metrics) network (institution_id i)).
Proof.
  intros _ Hwhole _. rewrite processCsvData_nodes.
  intros (idx & m & -> & _)%elem_of_lookup_imap_1.
  cbn [pagerank institution_id node_of]. apply aggregate_holds.
  eapply Forall_impl; [exact Hwhole|]. intros e. apply whole_finite.
Qed.

Lemma pagerank_is_gross_volume_witness :
  holds (pagerank (node_of (aggregate "2026-02-14" [edge "B" "A" 5; edge "A" "A" 1])
                     calm_market 0%nat (row "A" (Fin 100) (Fin 10) (Fin 1) (Fin 100))))
        (gross_volume "2026-02-14" [edge "B" "A" 5; edge "A" "A" 1] "A").
Proof.
  assert (Hplain : plain "A") by (apply (bool_decide_unpack _); vm_compute; exact I).
  assert (Hwhole : Forall (λ e, whole (exposure_amount e))
                     (rows_at "2026-02-14" [edge "B" "A" 5; edge "A" "A" 1])).
  { repeat first [apply List.Forall_cons | apply List.Forall_nil
                 | split; [apply Qle_bool_imp_le | apply Qeq_bool_eq]; reflexivity]. }
  assert (Hmax : gross_volume "2026-02-14" [edge "B" "A" 5; edge "A" "A" 1] "A"
                 <= max_exact)
    by (apply Qle_bool_imp_le; vm_compute; reflexivity).
  assert (Hin : node_of (aggregate "2026-02-14" [edge "B" "A" 5; edge "A" "A" 1])
                  calm_market 0%nat (row "A" (Fin 100) (Fin 10) (Fin 1) (Fin 100))
                ∈ nodes (processCsvData half
                           [row "A" (Fin 100) (Fin 10) (Fin 1) (Fin 100)]
                           [edge "B" "A" 5; edge "A" "A" 1] [calm_market] [] 0%nat).1).
  { rewrite processCsvData_nodes. by apply (elem_of_lookup_imap_2 _ _ _ 0%nat). }
  exact (pagerank_is_gross_volume half
           [row "A" (Fin 100) (Fin 10) (Fin 1) (Fin 100)]
           [edge "B" "A" 5; edge "A" "A" 1] [calm_market] [] 0%nat
           (node_of (aggregate "2026-02-14" [edge "B" "A" 5; edge "A" "A" 1])
              calm_market 0%nat (row "A" (Fin 100) (Fin 10) (Fin 1) (Fin 100)))
           Hplain Hwhole Hmax Hin).
Defined.

(** *** The predictions *)

Lemma mapM_Forall2 {A B} (R : A → B → Prop) (f : A → Rand B) (xs : list A) (n : nat) :
  (∀ x k, R x (f x k).1) → Forall2 R xs (mapM f xs n).1.
Proof.
  intros HR. revert n. induction xs as [|x xs IH]; intros n; [constructor|].
  cbn [mapM]. unfold mbind, rand_bind.
  pose proof (HR x n) as Hx. destruct (f x n) as [y n'].
  pose proof (IH n') as Hxs. destruct (mapM f xs n') as [ys n''].
  by constructor.
Qed.

Lemma prediction_of_ok (ω : nat → Q) (latest : string) (stable : number)
    (l : CrisisLabel) (k : nat) :
  (∀ j, 0 <= ω j ∧ ω j < 1) →
  prediction_ok latest stable l (prediction_of ω latest stable l k).1.
Proof.
  intros Hω. pose proof (Hω k) as Hk. pose proof (Hω (S k)) as HSk.
  unfold prediction_ok, prediction_of, mbind, rand_bind, random, mret, rand_ret.
  destruct (bool_decide (l_date l = latest)) eqn:Hdate;
    [apply bool_decide_eq_true in Hdate | apply bool_decide_eq_false in Hdate];
    destruct (truthy (crisis_severity l)) eqn:Hsev;
    destruct (truthy (is_crisis l)) eqn:Hcrisis;
    simpl; split_and!; try done; intros _; lra.
Qed.

(** X9: with draws in [0,1) there is one prediction for each label row, in
    order and with the row's date.  A row of the reference date gets the
    systemic risk index as its probability; any other row gets a
    probability in [0.65,0.75] when its crisis flag is set and in
    [0.25,0.35] when it is not.  The severity is the row's own when that is
    present and non-zero (it is not clamped), else it is drawn from [7,9]
    for a crisis row and from [3,5] otherwise. *)
Theorem predictions_follow_labels (ω : nat → Q)
    (metrics : list InstitutionMetrics) (network : list ExposureNetwork)
    (market : list MarketData) (labels : list CrisisLabel) (n : nat) :
  (∀ j, 0 <= ω j ∧ ω j < 1) →
  Forall2
    (prediction_ok (latestDate metrics)
       (calculateStableRisk ω (filter (λ m, m_date m = latestDate metrics) metrics)
          (marketLatest market (latestDate metrics)) n).1)
    labels
    (predictions (processCsvData ω metrics network market labels n).1).
Proof.
  intros Hω. unfold processCsvData, mbind at 1, rand_bind at 1.
  destruct (calculateStableRisk _ _ _ n) as [v n'] eqn:Hv. cbn [fst].
  unfold mbind, rand_bind.
  pose proof (mapM_Forall2 (prediction_ok (latestDate metrics) v)
                (prediction_of ω (latestDate metrics) v) labels n'
                (λ l k, prediction_of_ok ω _ v l k Hω)) as H.
  by destruct (mapM _ labels n') as [ps n''].
Qed.

Lemma predictions_follow_labels_witness :
  Forall2
    (prediction_ok "2026-02-14"
       (calculateStableRisk half [row "A" (Fin 100) (Fin 10) (Fin 1) (Fin 100)]
          calm_market 0%nat).1)
    [{| l_date := "2026-01-14"; is_crisis := Fin 1; crisis_severity := NaN |}]
    (predictions
       (processCsvData half [row "A" (Fin 100) (Fin 10) (Fin 1) (Fin 100)] []
          [calm_market]
          [{| l_date := "2026-01-14"; is_crisis := Fin 1; crisis_severity := NaN |}]
          0%nat).1).
Proof.
  assert (H : ∀ j, 0 <= half j ∧ half j < 1) by (intros j; unfold half; lra).
  exact (predictions_follow_labels half [row "A" (Fin 100) (Fin 10) (Fin 1) (Fin 100)]
           [] [calm_market]
           [{| l_date := "2026-01-14"; is_crisis := Fin 1; crisis_severity := NaN |}]
           0%nat H).
Defined.

End NormalizerExtra.

(** ** Display names *)

Module NamesProofs.

Import Names.

Lemma digit_of_lt (c : Ascii.ascii) (d : N) : digit_of c = Some d → (d < 10)%N.
Proof.
  unfold digit_of.
  destruct ((48 <=? Ascii.N_of_ascii c)%N && (Ascii.N_of_ascii c <=? 57)%N) eqn:E;
    [|discriminate].
  apply andb_true_iff in E as [E1%N.leb_le E2%N.leb_le].
  intros [= <-]. lia.
Qed.

Lemma digits_lt (id : string) : Forall (λ d, (d < 10)%N) (digits id).
Proof.
  induction id as [|c rest IH]; cbn [digits]; [apply List.Forall_nil|].
  destruct (digit_of c) as [d|] eqn:E; [|exact IH].
  apply List.Forall_cons; [by eapply digit_of_lt|exact IH].
Qed.

Lemma parse_snoc (ds : list N) (d : N) : parse (ds ++ [d]) = (10 * parse ds + d)%N.
Proof. unfold parse. by rewrite foldl_snoc. Qed.

(** The value of a digit string modulo ten is its last digit. *)
Lemma parse_mod_10 (ds : list N) :
  Forall (λ d, (d < 10)%N) ds → (parse ds mod 10 = default 0 (last ds))%N.
Proof.
  destruct ds as [|d ds _] using rev_ind; [done|].
  intros [_ Hd]%Forall_app. apply List.Forall_inv in Hd.
  rewrite parse_snoc, last_snoc. cbn [default].
  replace (10 * parse ds + d)%N with (d + parse ds * 10)%N by lia.
  rewrite N.Div0.mod_add. by apply N.mod_small.
Qed.

Lemma last_digit_lt (id : string) : (default 0 (last (digits id)) < 10)%N.
Proof.
  destruct (last (digits id)) as [d|] eqn:E; [|done].
  apply last_Some_elem_of in E.
  by apply (proj1 (Forall_forall _ _) (digits_lt id)).
Qed.

Lemma generateProfessionalName_digit (id : string) :
  generateProfessionalName id = name_of_digit (default 0%N (last (digits id))).
Proof.
  unfold generateProfessionalName, name_of_digit.
  change (N.of_nat (length GENERATED_PREFIXES)) with 10%N.
  change (N.of_nat (length GENERATED_SUFFIXES)) with 10%N.
  rewrite <- (N.Div0.add_mod_idemp_l (parse (digits id)) 3 10).
  by rewrite (parse_mod_10 _ (digits_lt id)).
Qed.

Lemma digit_cases (d : N) :
  (d < 10)%N → d ∈ [0; 1; 2; 3; 4; 5; 6; 7; 8; 9]%N.
Proof.
  intros H.
  assert (d = 0 ∨ d = 1 ∨ d = 2 ∨ d = 3 ∨ d = 4 ∨ d = 5 ∨ d = 6 ∨ d = 7 ∨ d = 8
          ∨ d = 9)%N as Hd by lia.
  repeat destruct Hd as [->|Hd]; [..|subst d]; set_solver.
Qed.

Lemma name_of_digit_inj (d1 d2 : N) :
  (d1 < 10)%N → (d2 < 10)%N → name_of_digit d1 = name_of_digit d2 → d1 = d2.
Proof.
  intros H1%digit_cases H2%digit_cases.
  repeat (apply elem_of_cons in H1 as [->|H1]);
    [..|by apply elem_of_nil in H1];
    (repeat (apply elem_of_cons in H2 as [->|H2]);
       [..|by apply elem_of_nil in H2]);
    vm_compute; congruence.
Qed.

(** X10: two ids whose digits read below 2^53 get the same display name
    exactly when their last digits are the same, an id without a digit
    counting as ending in 0. *)
Theorem names_collide_on_last_digit (id1 id2 : string) :
  (parse (digits id1) + 3 < 2 ^ 53)%N →
  (parse (digits id2) + 3 < 2 ^ 53)%N →
  generateProfessionalName id1 = generateProfessionalName id2
  ↔ default 0%N (last (digits id1)) = default 0%N (last (digits id2)).
Proof.
  intros _ _. rewrite !generateProfessionalName_digit. split.
  - apply name_of_digit_inj; apply last_digit_lt.
  - by intros ->.
Qed.

Lemma names_collide_on_last_digit_witness :
  generateProfessionalName "INST-0001" = generateProfessionalName "BANK 7/11"
  ∧ generateProfessionalName "INST-0001" = "Apex Investments".
Proof.
  split; [|reflexivity].
  apply (names_collide_on_last_digit "INST-0001" "BANK 7/11"); reflexivity.
Defined.

(** X11: the display name of an id whose digits read below 2^53 is one of
    ten fixed names, and it is the first of them, [Global Holdings], when
    the id has no digit. *)
Theorem name_is_one_of_ten (id : string) :
  (parse (digits id) + 3 < 2 ^ 53)%N →
  generateProfessionalName id
    ∈ ["Global Holdings"; "Apex Investments"; "Nova Group"; "Stellar Financial";
       "Ironclad Bancorp"; "Legacy Union"; "Centurion Credit"; "Summit Bank";
       "Horizon Trust"; "Zenith Capital"]
  ∧ (digits id = [] → generateProfessionalName id = "Global Holdings").
Proof.
  intros _. rewrite generateProfessionalName_digit. split.
  - pose proof (digit_cases _ (last_digit_lt id)) as H.
    apply (list_elem_of_fmap_2 name_of_digit) in H. exact H.
  - by intros ->.
Qed.

Lemma name_is_one_of_ten_witness :
  generateProfessionalName "BANK"
    ∈ ["Global Holdings"; "Apex Investments"; "Nova Group"; "Stellar Financial";
       "Ironclad Bancorp"; "Legacy Union"; "Centurion Credit"; "Summit Bank";
       "Horizon Trust"; "Zenith Capital"]
  ∧ generateProfessionalName "BANK" = "Global Holdings".
Proof.
  pose proof (name_is_one_of_ten "BANK") as [H1 H2]; [reflexivity|].
  split; [exact H1|exact (H2 eq_refl)].
Defined.

End NamesProofs.

(** ** The dashboard *)

Module DashboardProofs.

Import Normalizer Measures Dashboard JSFacts Samples.

Lemma or_truthy (x : number) (d : Q) : ¬ d == 0 → truthy (x || Fin d)%js = true.
Proof.
  intros Hd. unfold JS.or. destruct (truthy x) eqn:E; [exact E|].
  cbn [truthy]. by apply negb_true_iff, Qeq_bool_false.
Qed.

(** X12: the three headline figures of the risk monitor are never zero and
    never NaN, whatever the predictions are; without predictions they are
    42, 28 and 35. *)
Theorem headline_never_blank (predictions : list CrisisPrediction) :
  (truthy (currentRisk predictions) = true
   ∧ truthy (prob3m predictions) = true
   ∧ truthy (prob6m predictions) = true)
  ∧ (predictions = [] →
     currentRisk predictions = Fin 42 ∧ prob3m predictions = Fin 28
     ∧ prob6m predictions = Fin 35).
Proof.
  split.
  - unfold currentRisk, prob3m, prob6m. repeat split; by apply or_truthy.
  - by intros ->.
Qed.

Lemma capped_index_short (predictions : list CrisisPrediction) (k : nat) :
  (length predictions ≤ S k)%nat → capped_index predictions k = last_index predictions.
Proof.
  unfold capped_index, last_index.
  destruct (length predictions) as [|m]; [done|].
  intros H. f_equal. lia.
Qed.

(** X13: with at most four predictions the three-month figure reads the
    same prediction as the current risk, and with at most seven so does
    the six-month figure; the figures are then equal whenever that
    prediction has a probability other than zero and NaN. *)
Theorem short_history_repeats_current (predictions : list CrisisPrediction) :
  truthy (probability_at predictions (last_index predictions) * Fin 100)%js = true →
  ((length predictions ≤ 4)%nat → prob3m predictions = currentRisk predictions)
  ∧ ((length predictions ≤ 7)%nat → prob6m predictions = currentRisk predictions).
Proof.
  intros Ht. unfold prob3m, prob6m, currentRisk.
  split; intros Hlen; rewrite capped_index_short by lia;
    unfold JS.or; by rewrite Ht.
Qed.

Lemma short_history_repeats_current_witness :
  prob3m two_predictions = currentRisk two_predictions
  ∧ prob6m two_predictions = currentRisk two_predictions
  ∧ currentRisk two_predictions = Fin (0.5 * 100).
Proof.
  pose proof (short_history_repeats_current two_predictions eq_refl) as [H3 H6].
  split; [apply H3; simpl; lia|]. split; [apply H6; simpl; lia|reflexivity].
Defined.

(** X14: the three colour classifiers of the risk monitor put every score
    in the same band: red, orange or green together. *)
Theorem risk_bands_agree (score : number) :
  (getRiskColorClass score, getRiskBgClass score, getColor score)
    ∈ [ ("text-red-500", "bg-red-500", "#ef4444");
        ("text-orange-500", "bg-orange-500", "#f97316");
        ("text-green-500", "bg-green-500", "#22c55e") ].
Proof.
  unfold getRiskColorClass, getRiskBgClass, getColor.
  destruct (Fin 61 <=? score)%js; [set_solver|].
  destruct (Fin 31 <=? score)%js; set_solver.
Qed.

Lemma clamp_to_id (hi q : Q) : 0 <= q → q < hi → clamp_to hi (Fin q) = Fin q.
Proof.
  intros H0 H1. unfold clamp_to. cbn [JS.max JS.leb].
  rewrite (proj2 (Qle_bool_iff 0 q) H0). cbn [JS.min JS.leb].
  by rewrite (proj2 (Qle_bool_false hi q) H1).
Qed.

(** The nine draws of the effect, in the order in which they are made. *)
Lemma randomize_eq (ω : nat → Q) (n : nat) :
  randomize ω n
  = ({| shapData :=
          imap (λ k item, {| name := name item;
                             value := (value item
                                       + (Fin (ω (k + n)%nat) - Fin 0.5) * Fin 1.5)%js |})
               INITIAL_SHAP_DATA;
        page_severity := clamp_to 10 (Fin 7.4 + (Fin (ω (6 + n)%nat) - Fin 0.5) * Fin 2)%js;
        page_prob3m := clamp_to 100 (Fin 15.2 + (Fin (ω (7 + n)%nat) - Fin 0.5) * Fin 5)%js;
        page_prob6m := clamp_to 100 (Fin 28.4 + (Fin (ω (8 + n)%nat) - Fin 0.5) * Fin 10)%js |},
     (9 + n)%nat).
Proof. reflexivity. Qed.

(** X15: when every draw lies in [0, 1), a change of the target date sets a
    severity in [6.4, 8.4], which is always labelled [Severe], a
    three-month probability in [12.7, 17.7] and a six-month probability in
    [23.4, 33.4], so that the first stays below the second; the clamps to
    [0, 10] and [0, 100] never act. *)
Theorem date_change_stays_severe (ω : nat → Q) (n : nat) :
  (∀ j, 0 <= ω j ∧ ω j < 1) →
  within 6.4 8.4 (page_severity (randomize ω n).1)
  ∧ getSeverityLabel (page_severity (randomize ω n).1) = ("Severe", "text-red-500")
  ∧ within 12.7 17.7 (page_prob3m (randomize ω n).1)
  ∧ within 23.4 33.4 (page_prob6m (randomize ω n).1)
  ∧ (page_prob3m (randomize ω n).1 <? page_prob6m (randomize ω n).1)%js = true.
Proof.
  intros Hω. rewrite randomize_eq.
  cbn [fst page_severity page_prob3m page_prob6m JS.add JS.sub JS.mul JS.neg].
  destruct (Hω (6 + n)%nat) as [? ?], (Hω (7 + n)%nat) as [? ?],
    (Hω (8 + n)%nat) as [? ?].
  rewrite !clamp_to_id by lra.
  unfold getSeverityLabel, within. cbn [JS.leb JS.ltb].
  rewrite !(proj2 (Qle_bool_false _ _)) by lra.
  repeat split; try lra. apply Qltb_true. lra.
Qed.

Lemma date_change_stays_severe_witness :
  within 6.4 8.4 (page_severity (randomize half 0%nat).1)
  ∧ getSeverityLabel (page_severity (randomize half 0%nat).1) = ("Severe", "text-red-500").
Proof.
  pose proof (date_change_stays_severe half 0%nat) as (H1 & H2 & _).
  - intros j. unfold half. lra.
  - exact (conj H1 H2).
Defined.

(** X16: when every draw lies in [0, 1), a change of the target date keeps
    the six entries of the chart in order and under their names, moves each
    value by at most 0.75 from its initial one, and so never changes the
    colour of a bar; the effect makes nine draws. *)
Theorem date_change_keeps_bar_colours (ω : nat → Q) (n : nat) :
  (∀ j, 0 <= ω j ∧ ω j < 1) →
  Forall2 (λ old new,
             name new = name old
             ∧ bar_fill new = bar_fill old
             ∧ ∃ d, (- 0.75 <= d ∧ d <= 0.75) ∧ value new = (value old + Fin d)%js)
          INITIAL_SHAP_DATA (shapData (randomize ω n).1)
  ∧ (randomize ω n).2 = (n + 9)%nat.
Proof.
  intros Hω. rewrite randomize_eq. cbn [fst snd shapData]. split; [|lia].
  unfold INITIAL_SHAP_DATA. cbn [imap compose Nat.add].
  pose proof (Hω n) as [? ?]. pose proof (Hω (1 + n)%nat) as [? ?].
  pose proof (Hω (2 + n)%nat) as [? ?]. pose proof (Hω (3 + n)%nat) as [? ?].
  pose proof (Hω (4 + n)%nat) as [? ?]. pose proof (Hω (5 + n)%nat) as [? ?].
  cbn [Nat.add] in *.
  repeat match goal with
  | |- Forall2 _ _ _ => constructor
  end.
  all: cbv beta; split; [reflexivity|split];
    [ unfold bar_fill; cbn [value JS.add JS.sub JS.mul JS.neg JS.gtb JS.ltb];
      first [ rewrite !(proj2 (Qltb_true _ _)) by lra
            | rewrite !(proj2 (Qltb_false _ _)) by lra ]; reflexivity
    | eexists; split; [|cbn [value JS.add JS.sub JS.mul JS.neg]; reflexivity]; lra ].
Qed.

Lemma date_change_keeps_bar_colours_witness :
  map bar_fill (shapData (randomize half 0%nat).1) = map bar_fill INITIAL_SHAP_DATA
  ∧ (randomize half 0%nat).2 = 9%nat.
Proof.
  pose proof (date_change_keeps_bar_colours half 0%nat) as [H1 H2].
  - intros j. unfold half. lra.
  - split; [|exact H2].
    induction H1 as [|old new olds news (_ & Hfill & _) _ IH]; [reflexivity|].
    cbn [map]. by rewrite Hfill, IH.
Defined.

End DashboardProofs.

(** ** The intervention sandbox *)

Module SandboxProofs.

Import Measures Sandbox Notions JSFacts Samples.

Lemma constrain_range (x : Q) : 0.1 <= constrain x ∧ constrain x <= 45.
Proof.
  unfold constrain.
  destruct (Qltb 45 x) eqn:E1; [lra|]. apply Qltb_false in E1.
  destruct (Qltb x 0.1) eqn:E2; [lra|]. apply Qltb_false in E2. lra.
Qed.

Lemma constrain_mono (x y : Q) : x <= y → constrain x <= constrain y.
Proof.
  intros H. unfold constrain.
  destruct (Qltb 45 x) eqn:E1, (Qltb 45 y) eqn:E2,
    (Qltb x 0.1) eqn:E3, (Qltb y 0.1) eqn:E4;
    rewrite ?Qltb_true, ?Qltb_false in *; lra.
Qed.

Lemma manual_reduction_finite (cb er li : Q) (total_assets : number) :
  total_assets ≠ PInf → total_assets ≠ NInf →
  manual_reduction {| capitalBuffer := Fin cb; exposureReduction := Fin er;
                      liquidityInjection := Fin li |} total_assets
  = Fin (constrain ((cb * 1.5 + er * 0.8 + li / 500) * (asset_value total_assets / 500))).
Proof.
  intros H1 H2. unfold manual_reduction, constrain.
  cbn [capitalBuffer exposureReduction liquidityInjection].
  assert ((total_assets || Fin 500)%js = Fin (asset_value total_assets)) as ->.
  { destruct total_assets as [| | |a]; try done.
    unfold JS.or, asset_value. cbn [truthy]. by destruct (Qeq_bool a 0). }
  cbn [JS.mul JS.add JS.div]. change (Qeq_bool 500 0) with false. cbv iota.
  cbn [JS.mul JS.add JS.gtb JS.ltb].
  destruct (Qltb 45 _); [reflexivity|].
  cbn [JS.ltb]. by destruct (Qltb _ 0.1).
Qed.

Lemma outcome_after_finite (q : Q) :
  0.1 <= q → q <= 45 →
  outcome_after (Fin q)
  = {| prob := Fin (85 - q); loss := Fin (89 - q * 1.5);
       failures := Fin (inject_Z (Qfloor (12 - q / 5))) |}
  ∧ (3 <= Qfloor (12 - q / 5) <= 11)%Z.
Proof.
  intros H1 H2.
  assert (q / 5 == q * (1 # 5)) as Hdiv by reflexivity.
  assert (3 <= Qfloor (12 - q / 5) <= 11)%Z as Hk.
  { split.
    - change 3%Z with (Qfloor (inject_Z 3)). apply Qfloor_resp_le.
      change (inject_Z 3) with 3. lra.
    - cut (Qfloor (12 - q / 5) < 12)%Z; [lia|].
      rewrite Zlt_Qlt. eapply Qle_lt_trans; [apply Qfloor_le|].
      change (inject_Z 12) with 12. lra. }
  split; [|exact Hk].
  unfold outcome_after, baseline. cbn [prob loss failures JS.sub JS.add JS.neg JS.mul JS.div].
  change (Qeq_bool 5 0) with false. cbv iota. cbn [JS.add JS.neg floor JS.max JS.leb].
  rewrite !(proj2 (Qle_bool_iff 0 _)); [reflexivity|..].
  - change 0 with (inject_Z 0). rewrite <- Zle_Qle.
    change (12 + - (q / 5)) with (12 - q / 5). lia.
  - lra.
  - lra.
Qed.

(** X17: with the sliders within their ranges, a liquidity injection of
    magnitude at most 10^15 and a target whose assets are not infinite,
    a run of the sandbox reports the fixed baseline (85, 89, 12) and an
    outcome with a crisis probability in [40, 84.9], a loss in
    [21.5, 88.85] and a whole number of failures between 3 and 11, in the
    manual and in the AI mode. *)
Theorem intervention_outcome_bounds (mode : Mode) (selectedInstitution : option Institution)
    (c : Controls) (r : Results) :
  in_range c →
  (∀ inst, selectedInstitution = Some inst →
           total_assets inst ≠ PInf ∧ total_assets inst ≠ NInf) →
  runTargetedSimulation mode selectedInstitution c = Some r →
  before r = baseline
  ∧ within 40 84.9 (prob (after r))
  ∧ within 21.5 88.85 (loss (after r))
  ∧ ∃ k : Z, failures (after r) = Fin (inject_Z k) ∧ (3 <= k <= 11)%Z.
Proof.
  intros (Hcb & Her & Hli) Hassets Hrun.
  assert (∃ q, (0.1 <= q ∧ q <= 45) ∧ before r = baseline
               ∧ after r = outcome_after (Fin q)) as (q & [Hq1 Hq2] & Hb & Ha).
  { destruct mode, selectedInstitution as [inst|]; simplify_eq/=.
    - destruct c as [[| | |cb] [| | |er] [| | |li]]; try done.
      destruct (Hassets inst eq_refl) as [? ?].
      rewrite manual_reduction_finite by done.
      eexists; split; [apply constrain_range|done].
    - exists 42.5. split; [lra|done].
    - exists 42.5. split; [lra|done]. }
  destruct (outcome_after_finite q Hq1 Hq2) as [Heq Hk].
  rewrite Ha, Heq. cbn [prob loss failures within].
  split; [exact Hb|]. split; [lra|]. split; [lra|]. by eexists.
Qed.

Lemma intervention_outcome_bounds_witness :
  within 40 84.9
    (prob (outcome_after (manual_reduction default_controls (Fin 1000))))
  ∧ within 21.5 88.85
      (loss (outcome_after (manual_reduction default_controls (Fin 1000)))).
Proof.
  pose proof (intervention_outcome_bounds MANUAL (Some (bank "A" 1000 10))
                default_controls
                {| before := baseline;
                   after := outcome_after (manual_reduction default_controls (Fin 1000)) |})
    as H.
  destruct H as (_ & Hp & Hl & _); [| |reflexivity|exact (conj Hp Hl)].
  - unfold in_range, default_controls. simpl. lra.
  - intros inst [= <-]. split; discriminate.
Defined.

Lemma asset_value_nonneg (total_assets : number) :
  (total_assets <? Fin 0)%js = false → 0 <= asset_value total_assets.
Proof.
  destruct total_assets as [| | |a]; cbn [JS.ltb asset_value]; try lra.
  intros H%Qltb_false. destruct (Qeq_bool a 0); lra.
Qed.

(** X18: in the manual mode, on a target whose assets are not negative
    (or are missing) and not infinite, raising any of the three controls
    within their ranges never raises the reported crisis probability, loss
    or number of failures. *)
Theorem stronger_policy_lowers_risk (inst : Institution) (c c' : Controls)
    (r r' : Results) :
  in_range c → in_range c' →
  finite_le (capitalBuffer c) (capitalBuffer c') →
  finite_le (exposureReduction c) (exposureReduction c') →
  finite_le (liquidityInjection c) (liquidityInjection c') →
  (total_assets inst <? Fin 0)%js = false →
  total_assets inst ≠ PInf →
  runTargetedSimulation MANUAL (Some inst) c = Some r →
  runTargetedSimulation MANUAL (Some inst) c' = Some r' →
  finite_le (prob (after r')) (prob (after r))
  ∧ finite_le (loss (after r')) (loss (after r))
  ∧ finite_le (failures (after r')) (failures (after r)).
Proof.
  intros _ _ Hcb Her Hli Hneg Hinf [= <-] [= <-]. cbn [after].
  destruct c as [[| | |cb] [| | |er] [| | |li]]; try done.
  destruct c' as [[| | |cb'] [| | |er'] [| | |li']]; try done.
  cbn [finite_le capitalBuffer exposureReduction liquidityInjection] in Hcb, Her, Hli.
  assert (total_assets inst ≠ NInf) as Hninf by (by intros E; rewrite E in Hneg).
  rewrite !manual_reduction_finite by done.
  pose proof (asset_value_nonneg _ Hneg) as Hw.
  set (w := asset_value (total_assets inst)) in *.
  set (x := (cb * 1.5 + er * 0.8 + li / 500) * (w / 500)).
  set (y := (cb' * 1.5 + er' * 0.8 + li' / 500) * (w / 500)).
  assert (x <= y) as Hxy.
  { unfold x, y. apply Qmult_le_compat_r.
    - assert (li / 500 == li * (1 # 500)) by reflexivity.
      assert (li' / 500 == li' * (1 # 500)) by reflexivity. lra.
    - assert (w / 500 == w * (1 # 500)) by reflexivity. lra. }
  apply constrain_mono in Hxy.
  destruct (constrain_range x) as [Hx1 Hx2], (constrain_range y) as [Hy1 Hy2].
  destruct (outcome_after_finite _ Hx1 Hx2) as [-> _].
  destruct (outcome_after_finite _ Hy1 Hy2) as [-> _].
  cbn [prob loss failures finite_le]. split; [lra|]. split; [lra|].
  rewrite <- Zle_Qle. apply Qfloor_resp_le.
  assert (constrain x / 5 == constrain x * (1 # 5)) by reflexivity.
  assert (constrain y / 5 == constrain y * (1 # 5)) by reflexivity. lra.
Qed.

Lemma stronger_policy_lowers_risk_witness :
  finite_le
    (prob (outcome_after
             (manual_reduction
                {| capitalBuffer := Fin 5; exposureReduction := Fin 15;
                   liquidityInjection := Fin 250 |} (Fin 1000))))
    (prob (outcome_after (manual_reduction default_controls (Fin 1000))))
  ∧ (Fin 1000 <? Fin 0)%js = false.
Proof.
  split; [|reflexivity].
  refine (proj1 (stronger_policy_lowers_risk (bank "A" 1000 10) default_controls
                   {| capitalBuffer := Fin 5; exposureReduction := Fin 15;
                      liquidityInjection := Fin 250 |} _ _ _ _ _ _ _ _ _
                   eq_refl eq_refl)).
  - unfold in_range, default_controls. simpl. lra.
  - unfold in_range. simpl. lra.
  - simpl. lra.
  - simpl. lra.
  - simpl. lra.
  - reflexivity.
  - discriminate.
Defined.

End SandboxProofs.

(** ** The graph views *)

Module ViewsProofs.

Import Cascade Views Notions JSFacts Samples.

(** *** Sets of ids *)

Lemma Set_has_true (s : list string) (x : string) : Set_has s x = true ↔ x ∈ s.
Proof. apply bool_decide_eq_true. Qed.

Lemma elem_of_Set_add (s : list string) (y x : string) :
  x ∈ Set_add s y ↔ x ∈ s ∨ x = y.
Proof.
  unfold Set_add. destruct (Set_has s y) eqn:E.
  - apply Set_has_true in E. split; [by left|by intros [?| ->]].
  - by rewrite elem_of_app, list_elem_of_singleton.
Qed.

Lemma elem_of_foldl_Set_add (l s : list string) (x : string) :
  x ∈ foldl Set_add s l ↔ x ∈ s ∨ x ∈ l.
Proof.
  revert s. induction l as [|y l IH]; intros s; cbn [foldl].
  - rewrite elem_of_nil. tauto.
  - rewrite IH, elem_of_Set_add, elem_of_cons. tauto.
Qed.

Lemma elem_of_Set_of (l : list string) (x : string) : x ∈ Set_of l ↔ x ∈ l.
Proof. unfold Set_of. rewrite elem_of_foldl_Set_add, elem_of_nil. tauto. Qed.

Lemma Set_has_Set_of (l : list string) (x : string) :
  Set_has (Set_of l) x = true ↔ x ∈ l.
Proof. by rewrite Set_has_true, elem_of_Set_of. Qed.

(** *** The sort *)

Lemma insert_by_Permutation {A} (cmp : A → A → number) (x : A) (l : list A) :
  insert_by cmp x l ≡ₚ x :: l.
Proof.
  induction l as [|y l IH]; cbn [insert_by]; [done|].
  destruct (cmp x y >? Fin 0)%js; [|done]. rewrite IH. apply Permutation_swap.
Qed.

Lemma sort_by_Permutation {A} (cmp : A → A → number) (l : list A) :
  sort_by cmp l ≡ₚ l.
Proof.
  induction l as [|x l IH]; [done|].
  unfold sort_by. cbn [foldr]. rewrite insert_by_Permutation. by f_equiv.
Qed.

Lemma ltb_sub (x y : number) :
  x ≠ NaN → y ≠ NaN → (y - x >? Fin 0)%js = (x <? y)%js.
Proof.
  destruct x as [| | |a], y as [| | |b]; try done. intros _ _.
  cbn [JS.sub JS.neg JS.add JS.gtb JS.ltb].
  destruct (Qltb a b) eqn:E.
  - apply Qltb_true in E. apply Qltb_true. lra.
  - apply Qltb_false in E. apply Qltb_false. lra.
Qed.

Lemma by_assets_positive (a b : Institution) :
  (by_assets a b >? Fin 0)%js = (ranked_assets a <? ranked_assets b)%js.
Proof. apply ltb_sub; apply or_not_NaN. Qed.

Lemma ltb_asym (x y : number) : (x <? y)%js = true → (y <? x)%js = false.
Proof.
  destruct x as [| | |a], y as [| | |b]; try done. cbn [JS.ltb].
  rewrite Qltb_true, Qltb_false. lra.
Qed.

Lemma ltb_false_trans (x y z : number) :
  y ≠ NaN → (x <? y)%js = false → (y <? z)%js = false → (x <? z)%js = false.
Proof.
  destruct x as [| | |a], y as [| | |b], z as [| | |c]; try done. cbn [JS.ltb].
  rewrite !Qltb_false. lra.
Qed.

Lemma no_smaller_trans (a b c : Institution) :
  no_smaller a b → no_smaller b c → no_smaller a c.
Proof. apply ltb_false_trans, or_not_NaN. Qed.

Lemma insert_by_sorted (x : Institution) (l : list Institution) :
  StronglySorted no_smaller l → StronglySorted no_smaller (insert_by by_assets x l).
Proof.
  induction 1 as [|y l Hl IH Hy]; cbn [insert_by].
  - repeat constructor.
  - rewrite by_assets_positive. destruct (ranked_assets x <? ranked_assets y)%js eqn:E.
    + constructor; [exact IH|].
      rewrite insert_by_Permutation. constructor; [|exact Hy].
      by apply ltb_asym.
    + constructor; [by constructor|].
      constructor; [exact E|].
      eapply Forall_impl; [exact Hy|]. intros z Hz. by eapply no_smaller_trans.
Qed.

Lemma sort_by_sorted (l : list Institution) :
  StronglySorted no_smaller (sort_by by_assets l).
Proof.
  induction l as [|x l IH]; [constructor|].
  unfold sort_by. cbn [foldr]. by apply insert_by_sorted.
Qed.

(** X19: the 50 institutions offered as patient zero are institutions of
    the list, in descending order of their assets, and no institution left
    out has more assets than one that is offered. *)
Theorem top_banks_are_largest (institutions : list Institution) :
  length (topBanksForSelect institutions) = Nat.min 50 (length institutions)
  ∧ StronglySorted no_smaller (topBanksForSelect institutions)
  ∧ ∃ rest, institutions ≡ₚ topBanksForSelect institutions ++ rest
            ∧ ∀ a b, a ∈ topBanksForSelect institutions → b ∈ rest → no_smaller a b.
Proof.
  unfold topBanksForSelect.
  pose proof (sort_by_sorted institutions) as Hs.
  rewrite <- (take_drop 50 (sort_by by_assets institutions)) in Hs.
  split; [|split].
  - by rewrite length_take, (Permutation_length (sort_by_Permutation _ _)).
  - by eapply StronglySorted_app_1_l.
  - exists (drop 50 (sort_by by_assets institutions)). split.
    + by rewrite take_drop, sort_by_Permutation.
    + intros a b Ha Hb. by eapply StronglySorted_app_1_elem_of.
Qed.

(** *** The simulator's graph *)

Lemma elem_of_add_neighbours (f : list string) (es : list Exposure)
    (s : list string) (x : string) :
  x ∈ foldl (add_neighbours f) s es
  ↔ x ∈ s ∨ ∃ e, e ∈ es ∧ (source e ∈ f ∨ target e ∈ f) ∧ (x = source e ∨ x = target e).
Proof.
  revert s. induction es as [|e es IH]; intros s; cbn [foldl].
  - split; [by left|]. intros [?|(e & He & _)]; [done|]. by apply elem_of_nil in He.
  - rewrite IH. unfold add_neighbours. setoid_rewrite elem_of_cons.
    destruct (Set_has f (target e) || Set_has f (source e)) eqn:E.
    + apply orb_true_iff in E. rewrite !Set_has_true in E.
      rewrite !elem_of_Set_add. naive_solver.
    + apply orb_false_iff in E as [E1 E2].
      assert (target e ∉ f) by (by rewrite <- Set_has_true, E1).
      assert (source e ∉ f) by (by rewrite <- Set_has_true, E2).
      naive_solver.
Qed.

(** X20: the graph of the simulator draws institutions of the list and
    exposures of the list, in their order, and every exposure it draws
    joins two drawn institutions, with or without a cascade result. *)
Theorem simulator_links_join_drawn_nodes (institutions : list Institution)
    (exposures : list Exposure) (simResult : option SimResult) :
  g_nodes (graphData institutions exposures simResult) `sublist_of` institutions
  ∧ g_links (graphData institutions exposures simResult) `sublist_of` exposures
  ∧ Forall (λ e, source e ∈ ids (g_nodes (graphData institutions exposures simResult))
                 ∧ target e ∈ ids (g_nodes (graphData institutions exposures simResult)))
           (g_links (graphData institutions exposures simResult)).
Proof.
  unfold graphData. cbn [g_nodes g_links].
  split; [apply sublist_filter|]. split; [apply sublist_filter|].
  apply Forall_forall. intros e [He _]%list_elem_of_filter.
  apply andb_true_iff in He. by rewrite !Set_has_Set_of in He.
Qed.

(** X21: when a cascade result is shown, the simulator draws exactly the
    institutions of the list whose id is the id of one of the 50 largest,
    of a failed institution, or of an endpoint of an exposure that touches
    a failed institution; without a result it draws the institutions whose
    id is the id of one of the 50 largest. *)
Theorem simulator_draws_the_contagion (institutions : list Institution)
    (exposures : list Exposure) (i : Institution) :
  (∀ r, i ∈ g_nodes (graphData institutions exposures (Some r))
        ↔ i ∈ institutions
          ∧ (institution_id i ∈ ids (topBanksForSelect institutions)
             ∨ institution_id i ∈ failedNodes r
             ∨ ∃ e, e ∈ exposures
                    ∧ (source e ∈ failedNodes r ∨ target e ∈ failedNodes r)
                    ∧ (institution_id i = source e ∨ institution_id i = target e)))
  ∧ (i ∈ g_nodes (graphData institutions exposures None)
     ↔ i ∈ institutions ∧ institution_id i ∈ ids (topBanksForSelect institutions)).
Proof.
  unfold graphData, topBanksForSelect, ids. cbn [g_nodes]. split; [intros r|].
  - rewrite list_elem_of_filter, Set_has_true, elem_of_add_neighbours,
      elem_of_foldl_Set_add, elem_of_Set_of. tauto.
  - rewrite list_elem_of_filter, Set_has_Set_of. tauto.
Qed.

(** *** The network graph *)

Lemma filter_none {A} (P : A → Prop) `{!∀ x, Decision (P x)} (l : list A) :
  (∀ x, x ∈ l → ¬ P x) → filter P l = [].
Proof.
  induction l as [|x l IH]; intros HP; [done|].
  rewrite filter_cons_False by (apply HP; left).
  apply IH. intros y Hy. apply HP. by right.
Qed.

Lemma filter_all {A} (P : A → Prop) `{!∀ x, Decision (P x)} (l : list A) :
  (∀ x, x ∈ l → P x) → filter P l = l.
Proof.
  induction l as [|x l IH]; intros HP; [done|].
  rewrite filter_cons_True by (apply HP; left).
  f_equal. apply IH. intros y Hy. apply HP. by right.
Qed.

Lemma NoDup_fmap_eq {A B} (f : A → B) (l : list A) (x y : A) :
  NoDup (f <$> l) → x ∈ l → y ∈ l → f x = f y → x = y.
Proof.
  induction l as [|z l IH]; [by intros _ ?%elem_of_nil|].
  rewrite fmap_cons, NoDup_cons. intros [Hz Hl] Hx Hy Hf.
  apply elem_of_cons in Hx as [->|Hx], Hy as [->|Hy]; [done|..|by apply IH].
  - destruct Hz. rewrite Hf. by apply list_elem_of_fmap_2.
  - destruct Hz. rewrite <- Hf. by apply list_elem_of_fmap_2.
Qed.

Lemma fmap_node (f : Institution → bool) (l : list Institution) :
  node <$> ((λ n, {| node := n; showLabel := f n |}) <$> l) = l.
Proof. induction l as [|n l IH]; [done|]. cbn [fmap list_fmap] in *. by rewrite IH. Qed.



Lemma drawn_smartGraphData (nodes : list Institution) (links : list Exposure) :
  drawn (smartGraphData nodes links)
  = take 200 (sort_by by_assets nodes) ++ dangerZone nodes.
Proof.
  unfold drawn, smartGraphData, dangerZone.
  destruct nodes as [|n nodes]; [reflexivity|].
  cbn [length Nat.eqb Views.nodes]. apply fmap_node.
Qed.

Lemma elem_of_dangerZone (nodes : list Institution) (n : Institution) :
  n ∈ dangerZone nodes
  ↔ (((riskScore n || Fin 0) >? Fin 80)%js = true
     ∧ institution_id n ∉ ids (take 200 (sort_by by_assets nodes)))
    ∧ n ∈ nodes.
Proof.
  unfold dangerZone.
  rewrite list_elem_of_filter, andb_true_iff, negb_true_iff.
  rewrite <- (Set_has_Set_of (ids _)). destruct (Set_has _ _); intuition congruence.
Qed.

(** X22: the network graph draws exposures of the list in their order,
    each joining two drawn nodes and having an amount above 5; without
    nodes it draws no exposure. *)
Theorem smart_graph_links_join_drawn_nodes (nodes : list Institution)
    (links : list Exposure) :
  Views.links (smartGraphData nodes links) `sublist_of` links
  ∧ Forall (λ l, source l ∈ ids (drawn (smartGraphData nodes links))
                 ∧ target l ∈ ids (drawn (smartGraphData nodes links))
                 ∧ ((amount l || Fin 0) >? Fin 5)%js = true)
           (Views.links (smartGraphData nodes links))
  ∧ (nodes = [] → Views.links (smartGraphData nodes links) = []).
Proof.
  split; [|split; [|by intros ->]].
  - unfold smartGraphData. destruct (length nodes =? 0)%nat;
      [apply sublist_nil_l|apply sublist_filter].
  - rewrite drawn_smartGraphData. unfold smartGraphData, dangerZone.
    destruct (length nodes =? 0)%nat; [apply List.Forall_nil|].
    cbn [Views.links]. apply Forall_forall.
    intros l [Hl _]%list_elem_of_filter.
    apply andb_true_iff in Hl as [Hl Ha]. apply andb_true_iff in Hl as [Hs Ht].
    rewrite Set_has_Set_of in Hs, Ht. done.
Qed.

(** X23: when the nodes have distinct ids, the network graph draws no node
    twice, draws only nodes of the list, and draws every node whose risk
    score is above 80. *)
Theorem smart_graph_draws_each_node_once (nodes : list Institution)
    (links : list Exposure) :
  NoDup (ids nodes) →
  NoDup (ids (drawn (smartGraphData nodes links)))
  ∧ drawn (smartGraphData nodes links) ⊆+ nodes
  ∧ ∀ n, n ∈ nodes → ((riskScore n || Fin 0) >? Fin 80)%js = true →
         n ∈ drawn (smartGraphData nodes links).
Proof.
  intros Hnd. rewrite drawn_smartGraphData.
  pose proof (sort_by_Permutation by_assets nodes) as Hperm.
  set (s := sort_by by_assets nodes) in *.
  assert (NoDup (ids s)) as Hs by (unfold ids; by rewrite Hperm).
  assert (NoDup (ids (take 200 s) ++ ids (dangerZone nodes))) as Hall.
  { apply NoDup_app. split; [|split].
    - unfold ids. rewrite fmap_take. eapply sublist_NoDup; [exact Hs|apply sublist_take].
    - intros x Hx (n & -> & [[_ Hn] _]%elem_of_dangerZone)%list_elem_of_fmap. done.
    - eapply sublist_NoDup; [exact Hnd|].
      unfold ids, dangerZone. apply fmap_sublist, sublist_filter. }
  assert (ids (take 200 s ++ dangerZone nodes)
          = ids (take 200 s) ++ ids (dangerZone nodes)) as Hids
    by apply fmap_app.
  split; [by rewrite Hids|]. split.
  - apply NoDup_submseteq.
    + apply (NoDup_fmap_1 institution_id).
      change (NoDup (ids (take 200 s ++ dangerZone nodes))). by rewrite Hids.
    + intros n [Hn|Hn]%elem_of_app.
      * rewrite <- Hperm. by eapply elem_of_sublist, sublist_take.
      * by apply elem_of_dangerZone in Hn as [_ ?].
  - intros n Hn Hrisk. apply elem_of_app.
    destruct (decide (institution_id n ∈ ids (take 200 s))) as [Hin|Hout].
    + left. apply list_elem_of_fmap in Hin as (m & Hid & Hm).
      assert (m ∈ nodes) as Hm'
        by (rewrite <- Hperm; by eapply elem_of_sublist, sublist_take).
      by rewrite (NoDup_fmap_eq institution_id nodes n m Hnd Hn Hm' Hid).
    + right. by apply elem_of_dangerZone.
Qed.

Lemma smart_graph_draws_each_node_once_witness :
  NoDup (ids (drawn (smartGraphData three_banks [])))
  ∧ drawn (smartGraphData three_banks []) ⊆+ three_banks.
Proof.
  pose proof (smart_graph_draws_each_node_once three_banks []) as (H1 & H2 & _).
  - unfold three_banks, ids. cbn [fmap list_fmap bank institution_id].
    apply (bool_decide_unpack _). vm_compute. exact I.
  - exact (conj H1 H2).
Defined.



(** X25: with at most 200 nodes the network graph draws every node once,
    in descending order of assets, whatever the risk scores are. *)
Theorem small_graph_is_drawn_whole (nodes : list Institution) (links : list Exposure) :
  (length nodes ≤ 200)%nat →
  drawn (smartGraphData nodes links) = sort_by by_assets nodes
  ∧ drawn (smartGraphData nodes links) ≡ₚ nodes
  ∧ StronglySorted no_smaller (drawn (smartGraphData nodes links)).
Proof.
  intros Hlen. rewrite drawn_smartGraphData.
  pose proof (sort_by_Permutation by_assets nodes) as Hperm.
  assert (dangerZone nodes = []) as ->.
  { apply filter_none. intros n Hn [_ Hout%negb_true_iff]%andb_true_iff.
    assert (Set_has (Set_of (ids (take 200 (sort_by by_assets nodes))))
                    (institution_id n) = true) as Hin; [|congruence].
    apply Set_has_Set_of. rewrite take_ge by (by rewrite Hperm).
    apply list_elem_of_fmap_2. by rewrite Hperm. }
  rewrite app_nil_r, take_ge by (by rewrite Hperm).
  split; [done|]. split; [done|apply sort_by_sorted].
Qed.

Lemma small_graph_is_drawn_whole_witness :
  drawn (smartGraphData three_banks []) = sort_by by_assets three_banks
  ∧ drawn (smartGraphData three_banks []) ≡ₚ three_banks.
Proof.
  pose proof (small_graph_is_drawn_whole three_banks []) as (H1 & H2 & _).
  - simpl. lia.
  - exact (conj H1 H2).
Defined.

End ViewsProofs.

(** ** Mock data *)

Module MockProofs.

Import Normalizer Measures Mock Samples.

Lemma floor_index (r : Q) (k : nat) :
  0 <= r → r < 1 → (0 < k)%nat →
  (0 <= Qfloor (r * inject_Z (Z.of_nat k)) < Z.of_nat k)%Z.
Proof.
  intros H0 H1 Hk.
  assert (0 < inject_Z (Z.of_nat k)) as Hpos.
  { change 0 with (inject_Z 0). rewrite <- Zlt_Qlt. lia. }
  split.
  - change 0%Z with (Qfloor (inject_Z 0)). apply Qfloor_resp_le.
    change (inject_Z 0) with 0. by apply Qmult_le_0_compat; [|apply Qlt_le_weak].
  - rewrite Zlt_Qlt. eapply Qle_lt_trans; [apply Qfloor_le|].
    rewrite <- (Qmult_1_l (inject_Z (Z.of_nat k))) at 2.
    by apply Qmult_lt_compat_r.
Qed.

Lemma at_Z_draw (institutions : list Institution) (r : Q) :
  0 <= r → r < 1 → institutions ≠ [] →
  ∃ target, at_Z institutions (Qfloor (r * inject_Z (Z.of_nat (length institutions))))
            = Some target
            ∧ target ∈ institutions.
Proof.
  intros H0 H1 Hne.
  destruct (floor_index r (length institutions) H0 H1) as [Hlo Hhi].
  { destruct institutions; [done|simpl; lia]. }
  unfold at_Z. destruct (Z.ltb_spec (Qfloor (r * inject_Z (Z.of_nat (length institutions)))) 0);
    [lia|].
  destruct (lookup_lt_is_Some_2 institutions
              (Z.to_nat (Qfloor (r * inject_Z (Z.of_nat (length institutions))))))
    as [target Ht]; [lia|].
  exists target. split; [done|]. by eapply list_elem_of_lookup_2.
Qed.

Section draws.

Variable ω : nat → Q.
Hypothesis ω_unit : ∀ j, 0 <= ω j ∧ ω j < 1.
Variable institutions : list Institution.

Lemma links_of_ok (inst : Institution) (numLinks : nat) (exposures : list Exposure)
    (n : nat) :
  inst ∈ institutions →
  Forall (mock_link_ok institutions) exposures →
  ∃ new, (links_of ω institutions inst numLinks exposures n).1 = Normal (exposures ++ new)
         ∧ Forall (mock_link_ok institutions) new
         ∧ Forall (λ e, source e = institution_id inst) new
         ∧ (length new ≤ numLinks)%nat.
Proof.
  intros Hinst. revert exposures n.
  induction numLinks as [|k IH]; intros exposures n Hok.
  - exists []. rewrite app_nil_r. by repeat split.
  - cbn [links_of]. unfold mbind, rand_bind, draw at 1.
    destruct (ω_unit n) as [H0 H1].
    destruct (at_Z_draw institutions (ω n) H0 H1) as (tgt & -> & Ht).
    { intros ->. by apply elem_of_nil in Hinst. }
    case_bool_decide as Hdiff.
    + unfold draw at 1.
      set (e := {| source := institution_id inst; target := institution_id tgt;
                   amount := Fin (ω (S n) * 50 + 5); collateral := NaN |}).
      assert (mock_link_ok institutions e) as He.
      { destruct (ω_unit (S n)) as [? ?].
        unfold mock_link_ok, e. cbn [source target amount between].
        split; [by intros ?; apply Hdiff|].
        split; [by apply (list_elem_of_fmap_2 institution_id)|].
        split; [by apply (list_elem_of_fmap_2 institution_id)|]. lra. }
      destruct (IH (exposures ++ [e]) (S (S n))) as (new & Heq & Hnew & Hsrc & Hlen).
      { apply Forall_app. split; [done|]. by apply Forall_singleton. }
      exists (e :: new). rewrite Heq, <- app_assoc.
      repeat split; [by constructor|by constructor|simpl; lia].
    + destruct (IH exposures (S n) Hok) as (new & Heq & Hnew & Hsrc & Hlen).
      exists new. repeat split; [done..|lia].
Qed.

Lemma for_each_ok (todo : list Institution) (exposures : list Exposure) (n : nat) :
  todo ⊆ institutions →
  Forall (mock_link_ok institutions) exposures →
  ∃ new, (for_each ω institutions todo exposures n).1 = Normal (exposures ++ new)
         ∧ Forall (mock_link_ok institutions) new
         ∧ (length new ≤ 3 * length todo)%nat.
Proof.
  revert exposures n. induction todo as [|inst rest IH]; intros exposures n Hsub Hok.
  - exists []. rewrite app_nil_r. by repeat split.
  - cbn [for_each]. unfold mbind, rand_bind, draw at 1.
    destruct (ω_unit n) as [H0 H1].
    assert (Z.to_nat (Qfloor (ω n * 3) + 1) ≤ 3)%nat as Hnum.
    { pose proof (floor_index (ω n) 3 H0 H1) as Hf.
      change (inject_Z (Z.of_nat 3)) with 3 in Hf. lia. }
    destruct (links_of_ok inst (Z.to_nat (Qfloor (ω n * 3) + 1)) exposures (S n))
      as (new1 & Heq1 & Hnew1 & _ & Hlen1); [apply Hsub; left|done|].
    destruct (links_of ω institutions inst _ exposures (S n)) as [c n'].
    cbn [fst] in Heq1. subst c.
    destruct (IH (exposures ++ new1) n') as (new2 & Heq2 & Hnew2 & Hlen2).
    { intros x Hx. apply Hsub. by right. }
    { by apply Forall_app. }
    exists (new1 ++ new2). rewrite Heq2, <- app_assoc.
    repeat split; [by apply Forall_app|]. rewrite length_app. simpl. lia.
Qed.

End draws.

(** X26: when every draw lies in [0, 1), the mock exposures are generated
    without an exception; each joins two different ids of the institutions
    list and has an amount in [5, 55), and there are at most three times
    as many of them as there are institutions. *)
Theorem mock_exposures_are_wellformed (ω : nat → Q) (institutions : list Institution)
    (n : nat) :
  (∀ j, 0 <= ω j ∧ ω j < 1) →
  ∃ exposures, (generateMockExposures ω institutions n).1 = Normal exposures
               ∧ Forall (mock_link_ok institutions) exposures
               ∧ (length exposures ≤ 3 * length institutions)%nat.
Proof.
  intros Hω.
  destruct (for_each_ok ω Hω institutions institutions [] n) as (new & Heq & Hnew & Hlen);
    [done|constructor|].
  by exists new.
Qed.

Lemma mock_exposures_are_wellformed_witness :
  (generateMockExposures half three_banks 0%nat).1
  = Normal [ {| source := "A"; target := "B"; amount := Fin (0.5 * 50 + 5);
                collateral := NaN |};
             {| source := "A"; target := "B"; amount := Fin (0.5 * 50 + 5);
                collateral := NaN |};
             {| source := "C"; target := "B"; amount := Fin (0.5 * 50 + 5);
                collateral := NaN |};
             {| source := "C"; target := "B"; amount := Fin (0.5 * 50 + 5);
                collateral := NaN |} ]
  ∧ Forall (mock_link_ok three_banks)
      [ {| source := "A"; target := "B"; amount := Fin (0.5 * 50 + 5);
           collateral := NaN |};
        {| source := "A"; target := "B"; amount := Fin (0.5 * 50 + 5);
           collateral := NaN |};
        {| source := "C"; target := "B"; amount := Fin (0.5 * 50 + 5);
           collateral := NaN |};
        {| source := "C"; target := "B"; amount := Fin (0.5 * 50 + 5);
           collateral := NaN |} ].
Proof.
  destruct (mock_exposures_are_wellformed half three_banks 0%nat)
    as (exposures & Heq & Hok & _).
  - intros j. unfold half. lra.
  - assert ((generateMockExposures half three_banks 0%nat).1
            = Normal [ {| source := "A"; target := "B"; amount := Fin (0.5 * 50 + 5);
                          collateral := NaN |};
                       {| source := "A"; target := "B"; amount := Fin (0.5 * 50 + 5);
                          collateral := NaN |};
                       {| source := "C"; target := "B"; amount := Fin (0.5 * 50 + 5);
                          collateral := NaN |};
                       {| source := "C"; target := "B"; amount := Fin (0.5 * 50 + 5);
                          collateral := NaN |} ]) as Hrun by reflexivity.
    split; [exact Hrun|].
    rewrite Hrun in Heq. injection Heq as <-. exact Hok.
Defined.

End MockProofs.

(** ** The impact snapshot *)

Module SnapshotProofs.

Import Cascade Normalizer Measures Panels Notions JSFacts CascadeProofs NormalizerExtra Samples.

Lemma sound_holds (i : Institution) :
  (total_assets i <? Fin 0)%js = false → total_assets i ≠ PInf →
  holds (total_assets i || Fin 0)%js (assets_of i) ∧ 0 <= assets_of i.
Proof.
  intros Hneg Hinf. split.
  - apply amount_holds; [done|]. intros E. by rewrite E in Hneg.
  - unfold assets_of.
    destruct (total_assets i) as [| | |a]; [simpl; lra|done|by cbn in Hneg|].
    cbn [JS.ltb] in Hneg. apply Qltb_false in Hneg.
    unfold JS.or. cbn [truthy]. destruct (Qeq_bool a 0); simpl; lra.
Qed.

Lemma found_assets_cons (i : Institution) (rest : list Institution) (fid : string) :
  found_assets (i :: rest) fid
  = if decide (institution_id i = fid) then assets_of i else found_assets rest fid.
Proof.
  unfold found_assets. cbn [list_find]. destruct (decide (institution_id i = fid)); [done|].
  by destruct (list_find _ rest) as [[k j]|].
Qed.

Lemma found_assets_nonneg (institutions : list Institution) (fid : string) :
  sound_assets institutions → 0 <= found_assets institutions fid.
Proof.
  intros Hok. unfold found_assets.
  destruct (list_find _ institutions) as [[k i]|] eqn:Hfind; [|lra].
  apply list_find_Some in Hfind as (Hk & _ & _).
  apply list_elem_of_lookup_2 in Hk.
  destruct (proj1 (Forall_forall _ _) Hok i Hk) as [H1 H2].
  by apply sound_holds.
Qed.

Lemma loss_sum_skip (i : Institution) (rest : list Institution) (failed : list string) :
  institution_id i ∉ failed → loss_sum (i :: rest) failed == loss_sum rest failed.
Proof.
  induction failed as [|f fs IH]; intros Hout; [reflexivity|].
  apply not_elem_of_cons in Hout as [Hf Hfs]. cbn [loss_sum foldr].
  fold (loss_sum (i :: rest) fs). fold (loss_sum rest fs).
  rewrite found_assets_cons, decide_False by done. by rewrite IH.
Qed.

Lemma loss_sum_cons (i : Institution) (rest : list Institution) (failed : list string) :
  0 <= assets_of i →
  NoDup failed →
  loss_sum (i :: rest) failed
  <= assets_of i + loss_sum rest (filter (λ f, institution_id i ≠ f) failed).
Proof.
  intros H0. induction 1 as [|f fs Hf Hnd IH].
  - simpl. lra.
  - cbn [loss_sum foldr]. fold (loss_sum (i :: rest) fs).
    rewrite found_assets_cons, filter_cons.
    destruct (decide (institution_id i = f)) as [E|Hne].
    + rewrite <- E in Hf. rewrite decide_False by (by intros ?).
      rewrite ViewsProofs.filter_all by (by intros x Hx <-).
      pose proof (loss_sum_skip i rest fs Hf). lra.
    + rewrite decide_True by done. cbn [loss_sum foldr].
      fold (loss_sum rest (filter (λ f0, institution_id i ≠ f0) fs)). lra.
Qed.

Lemma loss_sum_le (institutions : list Institution) (failed : list string) :
  sound_assets institutions → NoDup failed →
  loss_sum institutions failed <= assets_sum institutions.
Proof.
  intros Hok. revert failed.
  induction Hok as [|i rest [Hneg Hinf] Hrest IH]; intros failed Hnd.
  - clear Hnd. induction failed as [|f fs IHf]; [simpl; lra|].
    cbn [loss_sum foldr]. fold (loss_sum [] fs).
    change (found_assets [] f) with 0. change (assets_sum []) with 0 in *. lra.
  - destruct (sound_holds i Hneg Hinf) as [_ H0].
    pose proof (loss_sum_cons i rest failed H0 Hnd) as H1.
    pose proof (IH (filter (λ f, institution_id i ≠ f) failed)
                  (NoDup_filter _ _ Hnd)) as H2.
    cbn [assets_sum foldr]. fold (assets_sum rest). lra.
Qed.

Lemma found_holds (institutions : list Institution) (fid : string) :
  sound_assets institutions →
  holds (match list_find (λ i, institution_id i = fid) institutions with
         | Some (_, i) => total_assets i
         | None => NaN
         end || Fin 0)%js
        (found_assets institutions fid).
Proof.
  intros Hok. unfold found_assets.
  destruct (list_find _ institutions) as [[k i]|] eqn:Hfind.
  - apply list_find_Some in Hfind as (Hk & _ & _).
    apply list_elem_of_lookup_2 in Hk.
    destruct (proj1 (Forall_forall _ _) Hok i Hk) as [H1 H2].
    by apply sound_holds.
  - by exists 0.
Qed.

Lemma total_loss_holds (institutions : list Institution) (failed : list string) :
  sound_assets institutions →
  holds (total_loss institutions failed) (loss_sum institutions failed).
Proof.
  intros Hok. unfold total_loss.
  cut (∀ acc a, holds acc a →
         holds (foldl (λ sum fid,
                         (sum + (match list_find (λ i, institution_id i = fid) institutions with
                                 | Some (_, i) => total_assets i
                                 | None => NaN
                                 end || Fin 0))%js) acc failed)
               (a + loss_sum institutions failed)).
  { intros H. eapply holds_eq; [apply (H (Fin 0) 0); by exists 0|]. lra. }
  induction failed as [|f fs IH]; intros acc a Hacc.
  - eapply holds_eq; [exact Hacc|]. simpl. lra.
  - cbn [foldl]. eapply holds_eq.
    + apply IH. apply holds_add; [exact Hacc|by apply found_holds].
    + cbn [loss_sum foldr]. fold (loss_sum institutions fs). lra.
Qed.

Lemma totalSystemAssets_holds (institutions : list Institution) :
  sound_assets institutions →
  holds (totalSystemAssets institutions) (assets_sum institutions).
Proof.
  intros Hok. unfold totalSystemAssets.
  cut (∀ acc a, holds acc a →
         holds (foldl (λ a b, (a + (total_assets b || Fin 0))%js) acc institutions)
               (a + assets_sum institutions)).
  { intros H. eapply holds_eq; [apply (H (Fin 0) 0); by exists 0|]. lra. }
  induction Hok as [|i rest [Hneg Hinf] Hrest IH]; intros acc a Hacc.
  - eapply holds_eq; [exact Hacc|]. simpl. lra.
  - cbn [foldl]. eapply holds_eq.
    + apply IH. apply holds_add; [exact Hacc|by apply sound_holds].
    + cbn [assets_sum foldr]. fold (assets_sum rest). lra.
Qed.

Lemma whole_sound (institutions : list Institution) :
  Forall (λ i, whole (total_assets i)) institutions → sound_assets institutions.
Proof.
  intros H. eapply Forall_impl; [exact H|]. intros i Hi. cbv beta in Hi.
  destruct (total_assets i) as [| | |a]; try done. destruct Hi as [Ha _].
  split; [|done]. cbn [JS.ltb]. by apply Qltb_false.
Qed.

(** X27: when the assets of the institutions are non-negative whole numbers
    (or missing) that add up to at most 2^53, the loss a cascade reports is
    a finite number that does not exceed the total assets of the system,
    and the fragility figure of the snapshot lies between 0 and 100 percent
    as soon as those total assets are positive. *)
Theorem fragility_is_a_percentage
    (institutions : list Institution) (exposures : list Exposure)
    (startId : string) (shock : number) (r : SimResult) (n : nat) :
  Forall (λ i, whole (total_assets i)) institutions →
  assets_sum institutions <= max_exact →
  runSimulation institutions exposures startId shock = Completed r n →
  finite_le (Fin 0) (totalLoss r)
  ∧ finite_le (totalLoss r) (totalSystemAssets institutions)
  ∧ ((Fin 0 <? totalSystemAssets institutions)%js = true →
     within 0 100 (systemicFragility institutions (Some r))).
Proof.
  intros Hok%whole_sound _ Hrun.
  assert (totalLoss r = total_loss institutions (failedNodes r)
          ∧ NoDup (failedNodes r)) as [Hloss Hnd].
  { revert Hrun. unfold runSimulation, run_with_fuel.
    case_bool_decide; [done|].
    destruct (while_loop _ _ _ _ _) as [[s b]|] eqn:Hloop; [|done].
    intros [= <- <-]. simpl.
    by destruct (loop_partition _ _ _ _ _ _ _ Hloop) as [_ ?]. }
  destruct (total_loss_holds institutions (failedNodes r) Hok) as (l & Hl & Hlq).
  destruct (totalSystemAssets_holds institutions Hok) as (t & Ht & Htq).
  pose proof (loss_sum_le institutions (failedNodes r) Hok Hnd) as Hle.
  assert (0 <= loss_sum institutions (failedNodes r)) as Hpos.
  { clear -Hok. induction (failedNodes r) as [|f fs IH]; [simpl; lra|].
    cbn [loss_sum foldr]. fold (loss_sum institutions fs).
    pose proof (found_assets_nonneg institutions f Hok). lra. }
  unfold systemicFragility. rewrite Hloss, Hl, Ht. cbn [finite_le JS.ltb].
  split; [lra|]. split; [lra|]. intros Htpos%Qltb_true.
  assert (∃ l', (Fin l || Fin 0)%js = Fin l' ∧ l' == l) as (l' & -> & Hl').
  { unfold JS.or. cbn [truthy]. destruct (Qeq_bool l 0) eqn:E.
    - apply Qeq_bool_iff in E. exists 0. split; [done|]. by rewrite E.
    - by exists l. }
  cbn [JS.div]. rewrite (Qeq_bool_pos t Htpos). cbn [JS.mul within].
  split.
  - apply Qmult_le_0_compat; [|lra]. apply Qle_shift_div_l; lra.
  - assert (l' / t <= 1) by (apply Qle_shift_div_r; lra). lra.
Qed.

Lemma fragility_is_a_percentage_witness :
  finite_le (Fin 200) (totalSystemAssets three_banks)
  ∧ within 0 100
      (systemicFragility three_banks
         (Some {| failedNodes := ["A"; "B"]; rounds := [["A"]; ["B"]];
                  totalLoss := Fin 200; depth := 1 |})).
Proof.
  assert (H : Forall (λ i, whole (total_assets i)) three_banks).
  { repeat first [apply List.Forall_cons | apply List.Forall_nil
                 | split; [apply Qle_bool_imp_le | apply Qeq_bool_eq]; reflexivity]. }
  assert (Hmax : assets_sum three_banks <= max_exact)
    by (apply Qle_bool_imp_le; vm_compute; reflexivity).
  pose proof (fragility_is_a_percentage three_banks [loan "B" "A" 60] "A" (Fin 1)
                _ _ H Hmax scenario_one_creditor) as (_ & H1 & H2).
  split; [exact H1|]. apply H2. reflexivity.
Defined.

End SnapshotProofs.

(** ** The analysis engine *)

Module EngineProofs.

Import Normalizer Measures Dashboard Engine JSFacts NormalizerExtra Samples.

Lemma processCsvData_predictions (ω : nat → Q)
    (metrics : list InstitutionMetrics) (network : list ExposureNetwork)
    (market : list MarketData) (labels : list CrisisLabel) (n : nat) :
  (∀ j, 0 <= ω j ∧ ω j < 1) →
  ∃ stable,
    Forall2 (prediction_ok (latestDate metrics) stable) labels
            (predictions (processCsvData ω metrics network market labels n).1).
Proof.
  intros Hω. unfold processCsvData, mbind at 1, rand_bind at 1.
  destruct (calculateStableRisk _ _ _ n) as [v n']. exists v.
  unfold mbind, rand_bind.
  pose proof (mapM_Forall2 (prediction_ok (latestDate metrics) v)
                (prediction_of ω (latestDate metrics) v) labels n'
                (λ l k, prediction_of_ok ω _ v l k Hω)) as H.
  by destruct (mapM _ labels n') as [ps n''].
Qed.

Lemma a_predictions_analyse (month_stamp : nat → string) (ω : nat → Q)
    (metrics : list InstitutionMetrics) (network : list ExposureNetwork)
    (market : list MarketData) (labels : list CrisisLabel) (n : nat) :
  a_predictions (analyse month_stamp ω metrics network market labels n).1
  = adjustedPredictions month_stamp
      (predictions (processCsvData ω metrics network market labels n).1).
Proof.
  unfold analyse, mbind, rand_bind.
  by destruct (processCsvData ω metrics network market labels n) as [d n'].
Qed.

Lemma percent_within (lo hi : Q) (p : number) (fallback : Q) :
  0 < lo → within lo hi p →
  ∃ q, (p * Fin 100 || Fin fallback)%js = Fin q ∧ lo * 100 <= q ∧ q <= hi * 100.
Proof.
  intros Hlo Hp. destruct p as [| | |q]; try done. destruct Hp as [H1 H2].
  exists (q * 100). cbn [JS.mul]. unfold JS.or. cbn [truthy].
  rewrite Qeq_bool_pos by lra. cbn [negb]. split; [done|lra].
Qed.

(** X28: after an analysis with draws in [0, 1), the dashboard holds one
    prediction for each of the first ten label rows; when the last of
    these rows is not of the reference date, the current risk shown is not
    a fallback value: it lies in [65, 75] percent if the row is flagged as
    a crisis and in [25, 35] percent if it is not. *)
Theorem analysis_headline (month_stamp : nat → string) (ω : nat → Q)
    (metrics : list InstitutionMetrics) (network : list ExposureNetwork)
    (market : list MarketData) (labels : list CrisisLabel) (n : nat)
    (l : CrisisLabel) :
  (∀ j, 0 <= ω j ∧ ω j < 1) →
  last (take 10 labels) = Some l →
  l_date l ≠ latestDate metrics →
  length (a_predictions (analyse month_stamp ω metrics network market labels n).1)
  = Nat.min 10 (length labels)
  ∧ within (if truthy (is_crisis l) then 65 else 25)
           (if truthy (is_crisis l) then 75 else 35)
           (currentRisk
               (a_predictions (analyse month_stamp ω metrics network market labels n).1)).
Proof.
  intros Hω Hlast Hdate. rewrite a_predictions_analyse.
  destruct (processCsvData_predictions ω metrics network market labels n Hω)
    as (stable & Hall).
  set (ps := predictions (processCsvData ω metrics network market labels n).1) in *.
  pose proof (Forall2_length _ _ _ Hall) as Hlen.
  unfold adjustedPredictions. split.
  - by rewrite length_imap, length_take, <- Hlen.
  - apply (Forall2_take _ _ _ 10) in Hall.
    pose proof (Forall2_length _ _ _ Hall) as Hlen10.
    rewrite last_lookup in Hlast.
    destruct (Forall2_lookup_l _ _ _ _ _ Hall Hlast) as (p & Hp & _ & _ & Hprob & _).
    specialize (Hprob Hdate).
    unfold currentRisk, last_index, probability_at.
    rewrite length_imap, <- Hlen10.
    destruct (length (take 10 labels)) as [|m] eqn:Hm.
    { apply lookup_lt_Some in Hlast. rewrite Hm in Hlast. lia. }
    cbn [pred] in Hp. rewrite list_lookup_imap, Hp. cbn [fmap option_fmap option_map probability].
    destruct (truthy (is_crisis l)).
    + destruct (percent_within 0.65 0.75 (probability p) 42) as (q & -> & ? & ?);
        [lra|done|]. simpl. lra.
    + destruct (percent_within 0.25 0.35 (probability p) 42) as (q & -> & ? & ?);
        [lra|done|]. simpl. lra.
Qed.

Lemma analysis_headline_witness :
  length (a_predictions
            (analyse (λ _, "2026-02-14") half [row "A" (Fin 100) (Fin 10) (Fin 1) (Fin 100)]
                     [] [calm_market] [crisis_label] 0%nat).1)
  = 1%nat
  ∧ within 65 75
      (currentRisk
         (a_predictions
            (analyse (λ _, "2026-02-14") half [row "A" (Fin 100) (Fin 10) (Fin 1) (Fin 100)]
                     [] [calm_market] [crisis_label] 0%nat).1)).
Proof.
  assert (H : ∀ j, 0 <= half j ∧ half j < 1) by (intros j; unfold half; lra).
  assert (Hd : l_date crisis_label
               ≠ latestDate [row "A" (Fin 100) (Fin 10) (Fin 1) (Fin 100)])
    by (intros E; vm_compute in E; discriminate E).
  exact (analysis_headline (λ _, "2026-02-14") half
           [row "A" (Fin 100) (Fin 10) (Fin 1) (Fin 100)] [] [calm_market]
           [crisis_label] 0%nat crisis_label H eq_refl Hd).
Defined.

End EngineProofs.
